(** * Notion blocks to markdown: a shallow embedding of
      [libs/blocks-markdown-parser/src/lib/blocks-markdown-parser.ts]

    The development follows the source file top to bottom: the JavaScript
    string primitives the parser relies on, the data model of blocks and
    rich text, the rich-text renderer, the block renderers, the tree walker
    [parse] and the singleton accessor [getInstance].  Strings are Rocq
    strings (sequences of 8-bit characters); every delimiter the parser
    searches for or inserts is ASCII. *)

From Stdlib Require Import String Ascii List ZArith Lia Bool Arith.
From Stdlib Require Import Numbers.DecimalString.
Import ListNotations.
Open Scope string_scope.

Set Implicit Arguments.

(* ================================================================== *)
(** ** JavaScript string primitives used by the parser *)
(* ================================================================== *)

Module Js.

Definition LF : ascii := "010"%char.

(** [String.prototype.repeat] *)
Fixpoint repeat (s : string) (count : nat) : string :=
  match count with
  | O => ""
  | S n => s ++ repeat s n
  end.

(** [String.prototype.startsWith] *)
Definition startsWith (s searchString : string) : bool :=
  String.prefix searchString s.

(** [String.prototype.indexOf]: position of the first occurrence. *)
Fixpoint indexOf (s searchString : string) : option nat :=
  if String.prefix searchString s then Some 0
  else match s with
       | "" => None
       | String _ s' => option_map S (indexOf s' searchString)
       end.

(** The characters of [s] from position [n] on. *)
Fixpoint drop (n : nat) (s : string) : string :=
  match n, s with
  | O, _ => s
  | S n', String _ s' => drop n' s'
  | S _, "" => ""
  end.

(** The first [n] characters of [s]. *)
Fixpoint take (n : nat) (s : string) : string :=
  match n, s with
  | S n', String c s' => String c (take n' s')
  | _, _ => ""
  end.

(** [GetSubstitution] of ECMAScript for a string pattern (no captures):
    in the replacement text [$$] stands for a dollar sign, [$&] for the
    matched text, [$`] for the text before the match and [$'] for the
    text after it; any other dollar sign is literal. *)
Fixpoint getSubstitution (matched before after replacement : string)
  : string :=
  match replacement with
  | "" => ""
  | String c rest =>
      if Ascii.eqb c "$" then
        match rest with
        | "" => "$"
        | String d rest' =>
            if Ascii.eqb d "$" then
              "$" ++ getSubstitution matched before after rest'
            else if Ascii.eqb d "&" then
              matched ++ getSubstitution matched before after rest'
            else if Ascii.eqb d "`" then
              before ++ getSubstitution matched before after rest'
            else if Ascii.eqb d "'" then
              after ++ getSubstitution matched before after rest'
            else
              String c (getSubstitution matched before after rest)
        end
      else String c (getSubstitution matched before after rest)
  end.

(** [String.prototype.replace] with a string pattern: only the first
    occurrence is replaced, and the replacement text is expanded by
    [getSubstitution]. *)
Definition replace (s searchValue replaceValue : string) : string :=
  match indexOf s searchValue with
  | None => s
  | Some pos =>
      let before := take pos s in
      let after := drop (pos + String.length searchValue) s in
      before ++ getSubstitution searchValue before after replaceValue
             ++ after
  end.

(** [String.prototype.split] with a one-character separator. *)
Fixpoint split (s : string) (separator : ascii) : list string :=
  match s with
  | "" => [""]
  | String c s' =>
      if Ascii.eqb c separator then "" :: split s' separator
      else match split s' separator with
           | piece :: pieces => String c piece :: pieces
           | [] => [String c ""]
           end
  end.

(** [Array.prototype.join] *)
Definition join (pieces : list string) (separator : string) : string :=
  String.concat separator pieces.

(** [String.prototype.toLowerCase] on the ASCII letters. *)
Definition lower_ascii (c : ascii) : ascii :=
  let n := nat_of_ascii c in
  if (65 <=? n)%nat && (n <=? 90)%nat then ascii_of_nat (n + 32) else c.

Fixpoint toLowerCase (s : string) : string :=
  match s with
  | "" => ""
  | String c s' => String (lower_ascii c) (toLowerCase s')
  end.

Definition digit_value (c : ascii) : option nat :=
  let n := nat_of_ascii c in
  if (48 <=? n)%nat && (n <=? 57)%nat then Some (n - 48) else None.

Fixpoint digits_value (s : string) (acc : nat) : option nat :=
  match s with
  | "" => Some acc
  | String c s' =>
      match digit_value c with
      | Some d => digits_value s' (10 * acc + d)
      | None => None
      end
  end.

(** [Number(s)] on strings of decimal digits (the empty string converts
    to 0); [None] is NaN.  The parser applies it to the suffix of a
    heading tag only. *)
Definition Number (s : option string) : option nat :=
  match s with
  | None => None
  | Some s => digits_value s 0
  end.

(** [s.repeat(n)] where [n] may be NaN, which counts as 0. *)
Definition repeat_number (s : string) (n : option nat) : string :=
  match n with
  | Some k => repeat s k
  | None => ""
  end.

(** Template-literal conversion of an integer. *)
Definition number_to_string (z : Z) : string :=
  NilZero.string_of_int (Z.to_int z).

(** Exceptions the parser can raise or let through. *)
Inductive Exception :=
| Error (message : string)      (* [throw new Error(message)] *)
| TypeError                     (* property read on [undefined] *)
| Rejection (reason : string).  (* a rejected promise *)

Inductive Completion (A : Type) :=
| Ok (value : A)
| Throw (e : Exception).
Arguments Ok {A} value.
Arguments Throw {A} e.

End Js.

Import Js.

Definition EOL_MD : string := String LF "".

(* ================================================================== *)
(** ** Data model (the types imported from the notion-types package) *)
(* ================================================================== *)

(** [keyof Annotations] *)
Inductive AnnotationKey :=
| key_bold | key_italic | key_strikethrough | key_underline | key_code
| key_color.

(** [boolean | Annotations['color']] *)
Inductive AnnotationValue :=
| Flag (on : bool)
| ColorName (name : string).

(** The annotations of a rich-text unit: an object, that is its entries
    in the key order of the object, which is the order in which
    [Object.entries] lists them. *)
Definition Annotations : Type := list (AnnotationKey * AnnotationValue).

(** The six values an annotations object holds: five flags and a colour
    name, ["default"] meaning no colour. *)
Record AnnotationFields := {
  bold : bool;
  italic : bool;
  strikethrough : bool;
  underline : bool;
  code : bool;
  color : string
}.

(** The annotations object with the given values whose keys come in the
    order bold, italic, strikethrough, underline, code, color. *)
Definition in_listed_order (a : AnnotationFields) : Annotations :=
  [ (key_bold, Flag (bold a));
    (key_italic, Flag (italic a));
    (key_strikethrough, Flag (strikethrough a));
    (key_underline, Flag (underline a));
    (key_code, Flag (code a));
    (key_color, ColorName (color a)) ].

(** A link is either a URL-bearing object or a direct URL value. *)
Inductive Link :=
| LinkObject (url : string)
| LinkUrl (url : string).

(** [RichTextText['text']] *)
Record TextContent := {
  content : string;
  link : option Link
}.

Record RichTextText := {
  text_annotations : Annotations;
  text_plain_text : string;
  text : TextContent
}.

Inductive MentionType := user | page | database | date.

Record RichTextMention := {
  mention_annotations : Annotations;
  mention_plain_text : string;
  mention : MentionType
}.

Record RichTextEquation := {
  equation_annotations : Annotations;
  equation_plain_text : string;
  expression : string
}.

Inductive RichText :=
| Text (richText : RichTextText)
| Mention (richText : RichTextMention)
| Equation (richText : RichTextEquation).

(** [ExternalFileWithCaption | FileWithCaption]: the discriminator is
    ['external'] or ['file']; the caption may be absent. *)
Inductive FileSource :=
| external (url : string)
| file (url : string).

Record FileValue := {
  source : FileSource;
  caption : option (list RichText)
}.

Inductive CalloutIcon :=
| CalloutIconEmoji (emoji : string)
| CalloutIconExternal (url : string)
| CalloutIconFile.

Inductive HeadingLevel := heading_1 | heading_2 | heading_3.

(** The tags of the block kinds the parser renders: paragraph, the three
    headings, the list items, to-do, toggle, quote, callout, code, the
    media kinds, embed, divider and unsupported. *)
Definition enumerated_kinds : list string :=
  [ "paragraph"; "heading_1"; "heading_2"; "heading_3";
    "bulleted_list_item"; "numbered_list_item"; "to_do"; "toggle";
    "quote"; "callout"; "code"; "image"; "audio"; "video"; "file"; "pdf";
    "embed"; "divider"; "unsupported" ].

(** Strings of decimal digits.  On those of at most 8 digits [Number] is
    exact and [repeat] stays within the length every engine allows. *)
Fixpoint decimal_digits (s : string) : bool :=
  match s with
  | "" => true
  | String c s' =>
      match digit_value c with
      | Some _ => decimal_digits s'
      | None => false
      end
  end.

(** The tags of the blocks outside the enumerated kinds: none of the tags
    above; where such a tag begins with [heading_], which sends the block
    to the heading renderer, the text after the first underscore is a
    string of at most 8 decimal digits. *)
Definition other_tag (type : string) : bool :=
  negb (existsb (String.eqb type) enumerated_kinds)
  && (negb (startsWith type "heading_")
      || match nth_error (split type "_") 1 with
         | Some suffix =>
             decimal_digits suffix && (String.length suffix <=? 8)%nat
         | None => false
         end).

(** The payload found under [block[block.type]], children apart.  The
    language tag of a code block may be absent; its runs are text runs: the
    renderer reads [rich_text[0].text].  [OtherBlock] stands for every
    other block: it carries its [type] tag and the [rich_text] field of its
    payload, if it has one, which is all the renderers can read of it. *)
Inductive BlockData :=
| UnsupportedBlock
| ParagraphBlock (rich_text : list RichText)
| CodeBlock (language : option string) (rich_text : list RichTextText)
| QuoteBlock (rich_text : list RichText)
| CalloutBlock (icon : CalloutIcon) (rich_text : list RichText)
| HeadingBlock (level : HeadingLevel) (rich_text : list RichText)
| BulletedListItemBlock (rich_text : list RichText)
| NumberedListItemBlock (rich_text : list RichText)
| ToDoBlock (checked : bool) (rich_text : list RichText)
| ToggleBlock (rich_text : list RichText)
| ImageBlock (image : FileValue)
| EmbedBlock (url : string) (embed_caption : option (list RichText))
| AudioBlock (audio : FileValue)
| VideoBlock (video : FileValue)
| FileBlock (file_ : FileValue)
| PDFBlock (pdf : FileValue)
| DividerBlock
| OtherBlock (type : string) (rich_text : option (list RichText))
    (other : other_tag type = true).

(** A block: [has_children], the children stored under the type-specific
    field [block[block.type].children] (possibly absent) and the rest of
    the payload.  The object [block[block.type]] itself is present on
    every block. *)
#[local] Unset Elimination Schemes.
Inductive Block :=
| mkBlock (has_children : bool) (children : option (list Block))
          (data : BlockData).
#[local] Set Elimination Schemes.

Definition has_children (b : Block) : bool :=
  match b with mkBlock h _ _ => h end.

Definition children (b : Block) : option (list Block) :=
  match b with mkBlock _ c _ => c end.

Definition data (b : Block) : BlockData :=
  match b with mkBlock _ _ d => d end.

Definition heading_tag (l : HeadingLevel) : string :=
  match l with
  | heading_1 => "heading_1"
  | heading_2 => "heading_2"
  | heading_3 => "heading_3"
  end.

(** [block.type] *)
Definition block_type (d : BlockData) : string :=
  match d with
  | UnsupportedBlock => "unsupported"
  | ParagraphBlock _ => "paragraph"
  | CodeBlock _ _ => "code"
  | QuoteBlock _ => "quote"
  | CalloutBlock _ _ => "callout"
  | HeadingBlock l _ => heading_tag l
  | BulletedListItemBlock _ => "bulleted_list_item"
  | NumberedListItemBlock _ => "numbered_list_item"
  | ToDoBlock _ _ => "to_do"
  | ToggleBlock _ => "toggle"
  | ImageBlock _ => "image"
  | EmbedBlock _ _ => "embed"
  | AudioBlock _ => "audio"
  | VideoBlock _ => "video"
  | FileBlock _ => "file"
  | PDFBlock _ => "pdf"
  | DividerBlock => "divider"
  | OtherBlock t _ _ => t
  end.

(* ================================================================== *)
(** ** Rich-text renderer *)
(* ================================================================== *)

(** Truthiness of an annotation value: [true], or a non-empty string. *)
Definition truthy (v : AnnotationValue) : bool :=
  match v with
  | Flag on => on
  | ColorName name => negb (name =? "")
  end.

(** Template-literal conversion of an annotation value. *)
Definition value_to_string (v : AnnotationValue) : string :=
  match v with
  | Flag true => "true"
  | Flag false => "false"
  | ColorName name => name
  end.

Definition annotateModifier (modifier : AnnotationKey)
  (originalContent : string) (color : AnnotationValue) : string :=
  match modifier with
  | key_bold => "**" ++ originalContent ++ "**"
  | key_italic => "_" ++ originalContent ++ "_"
  | key_strikethrough => "~~" ++ originalContent ++ "~~"
  | key_underline => "<u>" ++ originalContent ++ "</u>"
  | key_code => "`" ++ originalContent ++ "`"
  | key_color =>
      if negb (value_to_string color =? "default") then
        "<span notion-color='" ++ value_to_string color ++ "'>"
          ++ originalContent ++ "</span>"
      else originalContent
  end.

(** [Object.entries(annotations).reduce(..., originalContent)] *)
Definition annotate (annotations : Annotations) (originalContent : string)
  : string :=
  fold_left
    (fun annotatedContent entry =>
       let '(modifier, isOnOrColor) := entry in
       if truthy isOnOrColor
       then annotateModifier modifier annotatedContent isOnOrColor
       else annotatedContent)
    annotations originalContent.

(** Truthiness of [text.link]: absent and the empty string are falsy. *)
Definition link_truthy (l : option Link) : bool :=
  match l with
  | None => false
  | Some (LinkObject _) => true
  | Some (LinkUrl url) => negb (url =? "")
  end.

(** [text.link.url ? text.link.url : text.link], converted by the template
    literal.  A direct URL value has no [url] property; an object whose
    [url] is empty is itself converted to text.  [parseText] calls
    [annotateLink] on a truthy link only, so the last case is never
    reached. *)
Definition link_target (l : option Link) : string :=
  match l with
  | Some (LinkObject url) =>
      if negb (url =? "") then url else "[object Object]"
  | Some (LinkUrl url) => url
  | None => "undefined"
  end.

Definition annotateLink (text : TextContent) (annotatedContent : string)
  : string :=
  "[" ++ annotatedContent ++ "](" ++ link_target (link text) ++ ")".

Definition parseText (richText : RichTextText) : string :=
  let content := annotate (text_annotations richText)
                          (content (text richText)) in
  if link_truthy (link (text richText))
  then annotateLink (text richText) content
  else content.

(** The switch on [mention.mention.type] has four empty cases. *)
Definition parseMention (mention : RichTextMention) : string :=
  annotate (mention_annotations mention) (mention_plain_text mention).

Definition parseEquation (equation : RichTextEquation) : string :=
  annotate (equation_annotations equation)
           ("$" ++ expression equation ++ "$").

Definition parseRichTexts (richTexts : list RichText) : string :=
  fold_left
    (fun parsedContent richText =>
       match richText with
       | Text r => parsedContent ++ parseText r
       | Mention r => parsedContent ++ parseMention r
       | Equation r => parsedContent ++ parseEquation r
       end)
    richTexts "".

(** [parseFile] returns the record [{caption, url}]. *)
Record FileContent := {
  fc_caption : string;
  fc_url : string
}.

Definition parseFile (f : FileValue) : FileContent :=
  let url := match source f with
             | external u => u
             | file u => u
             end in
  {| fc_caption := match caption f with
                   | Some c => parseRichTexts c
                   | None => url
                   end;
     fc_url := url |}.

(* ================================================================== *)
(** ** Parser options, the image-size lookup and the rendering monad *)
(* ================================================================== *)

(** What [await getImageSize(url)] yields: an object whose [width] and
    [height], integers, may be missing, or a rejection. *)
Inductive LookupOutcome :=
| Resolved (width height : option Z)
| Rejected (reason : string).

(** [!n] on an optional number: missing and 0 are falsy. *)
Definition number_falsy (n : option Z) : bool :=
  match n with
  | None => true
  | Some z => (z =? 0)%Z
  end.

Definition number_text (n : option Z) : string :=
  match n with
  | Some z => number_to_string z
  | None => "undefined"
  end.

Section Parser.

(** State of whatever the injected lookup talks to. *)
Variable Env : Type.

Record NotionBlocksMarkdownParserOptions := {
  imageAsFigure : bool;
  addImageSizeToAltText : bool;
  getImageSize : option (string -> Env -> LookupOutcome * Env);
  emptyParagraphToNonBreakingSpace : bool
}.

(** The world a render runs in: the URLs passed to [getImageSize] so far,
    oldest first, and the state behind the lookup. *)
Record World := {
  lookups : list string;
  env : Env
}.

(** An asynchronous computation: it runs to completion on the world it is
    given before its continuation starts. *)
Definition Async (A : Type) : Type := World -> Completion A * World.

Definition ret {A} (a : A) : Async A := fun w => (Ok a, w).

Definition throw {A} (e : Exception) : Async A := fun w => (Throw e, w).

Definition bind {A B} (m : Async A) (k : A -> Async B) : Async B :=
  fun w =>
    match m w with
    | (Ok a, w') => k a w'
    | (Throw e, w') => (Throw e, w')
    end.

Definition lift {A} (c : Completion A) : Async A := fun w => (c, w).

(** [await this.parserOptions.getImageSize(url)] *)
Definition await_getImageSize
  (f : string -> Env -> LookupOutcome * Env) (url : string)
  : Async (option Z * option Z) :=
  fun w =>
    let '(outcome, e') := f url (env w) in
    let w' := {| lookups := lookups w ++ [url]; env := e' |} in
    match outcome with
    | Resolved width height => (Ok (width, height), w')
    | Rejected reason => (Throw (Rejection reason), w')
    end.

End Parser.

Arguments ret {Env A} a _.
Arguments throw {Env A} e _.
Arguments lift {Env A} c _.

Notation "x <- m ;; k" := (bind m (fun x => k))
  (at level 61, m at next level, right associativity).

(** [for (const x of xs) s = await body(s, x)] *)
Definition for_of {Env A S} (body : S -> A -> Async Env S)
  : list A -> S -> Async Env S :=
  fix loop (xs : list A) (s : S) : Async Env S :=
    match xs with
    | [] => ret s
    | x :: xs' => s' <- body s x ;; loop xs' s'
    end.

(* ================================================================== *)
(** ** Block renderers *)
(* ================================================================== *)

Section Renderers.

Variable Env : Type.

(** [processExternalVideoUrl] of [./external-video.util], which is not part
    of the sources: it returns whether the URL was turned into an
    embeddable fragment, and the fragment or the URL. *)
Variable processExternalVideoUrl : string -> bool * string.

(** [this.parserOptions] *)
Variable parserOptions : NotionBlocksMarkdownParserOptions Env.

(** Each renderer reads the payload stored under its own tag; on a block
    that carries another payload that read is a read on [undefined]. *)

Definition parseParagraph (paragraphBlock : BlockData) : Completion string :=
  match paragraphBlock with
  | ParagraphBlock rich_text =>
      let text :=
        if emptyParagraphToNonBreakingSpace parserOptions
           && (List.length rich_text =? 0)%nat
        then "&nbsp;"
        else parseRichTexts rich_text in
      Ok (EOL_MD ++ text ++ EOL_MD)
  | _ => Throw TypeError
  end.

Definition parseCodeBlock (codeBlock : BlockData) : Completion string :=
  match codeBlock with
  | CodeBlock (Some language) rich_text =>
      let lowered := toLowerCase language in
      let info := if lowered =? "" then "" else lowered in
      match rich_text with
      | first :: _ =>
          Ok (("```" ++ info ++ EOL_MD
                 ++ content (text first) ++ EOL_MD
                 ++ "```") ++ EOL_MD)
      | [] => Throw TypeError
      end
  | CodeBlock None _ => Throw TypeError
  | _ => Throw TypeError
  end.

Definition parseQuoteBlock (quoteBlock : BlockData) : Completion string :=
  match quoteBlock with
  | QuoteBlock rich_text =>
      Ok (EOL_MD
            ++ ("> " ++ join (split (parseRichTexts rich_text) LF)
                             (EOL_MD ++ "> "))
            ++ EOL_MD)
  | _ => Throw TypeError
  end.

Definition getCalloutIcon (icon : CalloutIcon) : string :=
  match icon with
  | CalloutIconEmoji emoji =>
      "<span notion-callout-emoji>" ++ emoji ++ "</span>"
  | CalloutIconExternal url =>
      "<img notion-callout-external src='" ++ url
        ++ "' alt='notion-callout-external-link'/>"
  | CalloutIconFile => "notion-callout-file"
  end.

Definition parseCalloutBlock (calloutBlock : BlockData) : Completion string :=
  match calloutBlock with
  | CalloutBlock icon rich_text =>
      let callout :=
        "<div notion-callout>" ++ EOL_MD
          ++ "  {{icon}}" ++ EOL_MD
          ++ "  <span notion-callout-text>" ++ EOL_MD
          ++ "    " ++ parseRichTexts rich_text ++ EOL_MD
          ++ "  </span>" ++ EOL_MD
          ++ "</div>" in
      Ok (EOL_MD ++ replace callout "{{icon}}" (getCalloutIcon icon)
                 ++ EOL_MD)
  | _ => Throw TypeError
  end.

Definition parseHeading (headingBlock : BlockData)
  (headingLevel : option nat) : Completion string :=
  match headingBlock with
  | HeadingBlock _ rich_text
  | OtherBlock _ (Some rich_text) _ =>
      Ok (EOL_MD ++ repeat_number "#" headingLevel ++ " "
                 ++ parseRichTexts rich_text ++ EOL_MD)
  | _ => Throw TypeError
  end.

Definition parseBulletedListItems (bulletedListItemBlock : BlockData)
  : Completion string :=
  match bulletedListItemBlock with
  | BulletedListItemBlock rich_text =>
      Ok ("* " ++ join (split (parseRichTexts rich_text) LF)
                       (EOL_MD ++ "    ")
               ++ EOL_MD)
  | _ => Throw TypeError
  end.

Definition parseNumberedListItems (numberedListItemBlock : BlockData)
  : Completion string :=
  match numberedListItemBlock with
  | NumberedListItemBlock rich_text =>
      Ok ("1. " ++ join (split (parseRichTexts rich_text) LF)
                        (EOL_MD ++ "    ")
                ++ EOL_MD)
  | _ => Throw TypeError
  end.

Definition parseTodoBlock (todoBlock : BlockData) : Completion string :=
  match todoBlock with
  | ToDoBlock checked rich_text =>
      Ok (("- [" ++ (if checked then "x" else " ") ++ "] ")
            ++ parseRichTexts rich_text ++ EOL_MD)
  | _ => Throw TypeError
  end.

Definition parseToggleBlock (toggleBlock : BlockData) : Completion string :=
  match toggleBlock with
  | ToggleBlock rich_text =>
      Ok ("<details><summary>" ++ parseRichTexts rich_text
            ++ "</summary>{{childBlock}}</details>")
  | _ => Throw TypeError
  end.

Definition parseImageBlock (imageBlock : BlockData) : Async Env string :=
  match imageBlock with
  | ImageBlock image =>
      let url := fc_url (parseFile image) in
      let caption := fc_caption (parseFile image) in
      if imageAsFigure parserOptions then
        ret ((EOL_MD
                ++ "<figure notion-figure>" ++ EOL_MD
                ++ "  <img src='" ++ url ++ "' alt='" ++ caption ++ "'>"
                ++ EOL_MD
                ++ "  <figcaption notion-figcaption>" ++ caption
                ++ "</figcaption>" ++ EOL_MD
                ++ "</figure>" ++ EOL_MD) ++ EOL_MD)
      else if addImageSizeToAltText parserOptions then
        match getImageSize parserOptions with
        | None =>
            throw (Error "parserOptions.getImageSize is required if parserOptions.addImageSizeToAltText is true")
        | Some lookup =>
            result <- await_getImageSize lookup url ;;
            let '(width, height) := result in
            if number_falsy width || number_falsy height then
              throw (Error "Could not find width/height for image")
            else
              ret (("![" ++ caption ++ "|" ++ number_text width ++ "x"
                      ++ number_text height ++ "](" ++ url ++ ")")
                     ++ EOL_MD)
        end
      else ret (("![" ++ caption ++ "](" ++ url ++ ")") ++ EOL_MD)
  | _ => throw TypeError
  end.

Definition parseAudioBlock (audioBlock : BlockData) : Completion string :=
  match audioBlock with
  | AudioBlock audio =>
      let url := fc_url (parseFile audio) in
      let caption := fc_caption (parseFile audio) in
      Ok ("![" ++ caption ++ "](" ++ url ++ ")")
  | _ => Throw TypeError
  end.

Definition parseVideoBlock (videoBlock : BlockData) : Completion string :=
  match videoBlock with
  | VideoBlock video =>
      let url := fc_url (parseFile video) in
      let caption := fc_caption (parseFile video) in
      let '(processed, iframeOrUrl) := processExternalVideoUrl url in
      if processed then Ok (EOL_MD ++ iframeOrUrl ++ EOL_MD)
      else Ok (("To be supported: " ++ url ++ " with " ++ caption)
                 ++ EOL_MD)
  | _ => Throw TypeError
  end.

Definition parseFileBlock (fileBlock : BlockData) : Completion string :=
  match fileBlock with
  | FileBlock f =>
      let url := fc_url (parseFile f) in
      let caption := fc_caption (parseFile f) in
      Ok (("To be supported: " ++ url ++ " with " ++ caption) ++ EOL_MD)
  | _ => Throw TypeError
  end.

Definition parsePdfBlock (pdfBlock : BlockData) : Completion string :=
  match pdfBlock with
  | PDFBlock pdf =>
      let url := fc_url (parseFile pdf) in
      let caption := fc_caption (parseFile pdf) in
      Ok ((EOL_MD
             ++ "<figure>" ++ EOL_MD
             ++ "  <object data='" ++ url
             ++ "' type='application/pdf'></object>" ++ EOL_MD
             ++ "  <figcaption>" ++ caption ++ "</figcaption>" ++ EOL_MD
             ++ "</figure>" ++ EOL_MD) ++ EOL_MD)
  | _ => Throw TypeError
  end.

Definition parseEmbedBlock (embedBlock : BlockData) : Completion string :=
  match embedBlock with
  | EmbedBlock url embed_caption =>
      let embedded := "<iframe src='" ++ url ++ "'></iframe>" in
      match embed_caption with
      | Some c =>
          Ok ((EOL_MD
                 ++ "<figure>" ++ EOL_MD
                 ++ "  " ++ embedded ++ EOL_MD
                 ++ "  <figcaption>" ++ parseRichTexts c ++ "</figcaption>"
                 ++ EOL_MD
                 ++ "</figure>") ++ EOL_MD)
      | None => Ok (embedded ++ EOL_MD)
      end
  | _ => Throw TypeError
  end.

(* ================================================================== *)
(** ** Tree walker *)
(* ================================================================== *)

(** [if (cond) markdown += rendered] *)
Definition append_if (cond : bool) (markdown : string)
  (rendered : Async Env string) : Async Env string :=
  if cond then (s <- rendered ;; ret (markdown ++ s)) else ret markdown.

(** [childBlockString]: the render of the children at [depth + 2] when
    [has_children] is set and the children are present, else empty. *)
Definition childBlockString_of
  (parse : list Block -> nat -> Async Env string)
  (depth : nat) (childBlock : Block) : Async Env string :=
  if has_children childBlock then
    match children childBlock with
    | Some cs => parse cs (depth + 2)
    | None => ret ""
    end
  else ret "".

(** [Number(childBlock.type.split('_')[1])] *)
Definition headingLevel_of (type : string) : option nat :=
  Number (nth_error (split type "_") 1).

(** The body of the loop of [parse], as a function of the accumulator
    [markdown]; [parse] is the recursive call. *)
Definition loop_body (parse : list Block -> nat -> Async Env string)
  (depth : nat) (markdown : string) (childBlock : Block)
  : Async Env string :=
  let prefix := repeat " " depth in
  let type := block_type (data childBlock) in
  let d := data childBlock in
  childBlockString <- childBlockString_of parse depth childBlock ;;
  markdown <- append_if (type =? "unsupported") markdown
    (ret ((prefix ++ "NotionAPI Unsupported")
            ++ repeat EOL_MD 2 ++ childBlockString)) ;;
  markdown <- append_if (type =? "paragraph") markdown
    (s <- lift (parseParagraph d) ;; ret (prefix ++ s ++ childBlockString)) ;;
  markdown <- append_if (type =? "code") markdown
    (s <- lift (parseCodeBlock d) ;; ret (prefix ++ s ++ childBlockString)) ;;
  markdown <- append_if (type =? "quote") markdown
    (s <- lift (parseQuoteBlock d) ;; ret (prefix ++ s ++ childBlockString)) ;;
  markdown <- append_if (type =? "callout") markdown
    (s <- lift (parseCalloutBlock d) ;;
     ret (prefix ++ s ++ childBlockString)) ;;
  markdown <- append_if (startsWith type "heading_") markdown
    (let headingLevel := headingLevel_of type in
     s <- lift (parseHeading d headingLevel) ;;
     ret (prefix ++ s ++ childBlockString)) ;;
  markdown <- append_if (type =? "bulleted_list_item") markdown
    (s <- lift (parseBulletedListItems d) ;;
     ret (prefix ++ s ++ childBlockString)) ;;
  markdown <- append_if (type =? "numbered_list_item") markdown
    (s <- lift (parseNumberedListItems d) ;;
     ret (prefix ++ s ++ childBlockString)) ;;
  markdown <- append_if (type =? "to_do") markdown
    (s <- lift (parseTodoBlock d) ;; ret (prefix ++ s ++ childBlockString)) ;;
  markdown <- append_if (type =? "toggle") markdown
    (s <- lift (parseToggleBlock d) ;;
     ret (prefix ++ replace s "{{childBlock}}" childBlockString)) ;;
  markdown <- append_if (type =? "image") markdown
    (s <- parseImageBlock d ;; ret (prefix ++ s ++ childBlockString)) ;;
  markdown <- append_if (type =? "embed") markdown
    (s <- lift (parseEmbedBlock d) ;; ret (prefix ++ s ++ childBlockString)) ;;
  markdown <- append_if (type =? "audio") markdown
    (s <- lift (parseAudioBlock d) ;; ret (prefix ++ s ++ childBlockString)) ;;
  markdown <- append_if (type =? "video") markdown
    (s <- lift (parseVideoBlock d) ;; ret (prefix ++ s ++ childBlockString)) ;;
  markdown <- append_if (type =? "file") markdown
    (s <- lift (parseFileBlock d) ;; ret (prefix ++ s ++ childBlockString)) ;;
  markdown <- append_if (type =? "pdf") markdown
    (s <- lift (parsePdfBlock d) ;; ret (prefix ++ s ++ childBlockString)) ;;
  markdown <- append_if (type =? "divider") markdown
    (ret (prefix ++ EOL_MD ++ "---" ++ EOL_MD ++ childBlockString)) ;;
  ret markdown.

(** One iteration of the loop on [childBlock], recursion into its children
    included. *)
Fixpoint parse_block (depth : nat) (markdown : string) (childBlock : Block)
  {struct childBlock} : Async Env string :=
  loop_body
    (fun blocks depth' =>
       markdown' <- for_of (parse_block depth') blocks "" ;;
       ret (markdown' ++ EOL_MD))
    depth markdown childBlock.

(** [async parse(blocks, depth = 0)] *)
Definition parse (blocks : list Block) (depth : nat) : Async Env string :=
  markdown <- for_of (parse_block depth) blocks "" ;;
  ret (markdown ++ EOL_MD).

End Renderers.

(* ================================================================== *)
(** ** The class, its constructor and the singleton accessor *)
(* ================================================================== *)

Section Singleton.

Variable Env : Type.

(** [Partial<NotionBlocksMarkdownParserOptions>]: every key may be absent. *)
Record PartialOptions := {
  opt_imageAsFigure : option bool;
  opt_addImageSizeToAltText : option bool;
  opt_getImageSize : option (string -> Env -> LookupOutcome * Env);
  opt_emptyParagraphToNonBreakingSpace : option bool
}.

(** [options || {}] *)
Definition no_options : PartialOptions :=
  {| opt_imageAsFigure := None;
     opt_addImageSizeToAltText := None;
     opt_getImageSize := None;
     opt_emptyParagraphToNonBreakingSpace := None |}.

(** A key of the spread [options] overrides the default written before it;
    a key with no default and no value stays [undefined], which the
    renderers test as false. *)
Definition spread (default : bool) (given : option bool) : bool :=
  match given with
  | Some b => b
  | None => default
  end.

(** An instance of the class: its [parserOptions]. *)
Record NotionBlocksMarkdownParser := {
  parserOptions : NotionBlocksMarkdownParserOptions Env
}.

(** [private constructor(options?)] *)
Definition constructor (options : option PartialOptions)
  : NotionBlocksMarkdownParser :=
  let o := match options with Some o => o | None => no_options end in
  {| parserOptions :=
       {| imageAsFigure := spread true (opt_imageAsFigure o);
          addImageSizeToAltText :=
            spread false (opt_addImageSizeToAltText o);
          getImageSize := opt_getImageSize o;
          emptyParagraphToNonBreakingSpace :=
            spread false (opt_emptyParagraphToNonBreakingSpace o) |} |}.




End Singleton.

(* ================================================================== *)
(** ** Traversal orders and auxiliary definitions of the statements *)
(* ================================================================== *)

(** The children the walker recurses into. *)
Definition visited_children (b : Block) : list Block :=
  if has_children b then
    match children b with
    | Some cs => cs
    | None => []
    end
  else [].

(** The payloads in the order the walker renders them: a block's children
    are rendered before the block itself. *)
Fixpoint walk_order (b : Block) : list BlockData :=
  match b with
  | mkBlock h c d =>
      (if h then
         match c with
         | Some cs => flat_map walk_order cs
         | None => []
         end
       else []) ++ [d]
  end.

(** The payloads in document order: a block comes before its children. *)
Fixpoint document_order (b : Block) : list BlockData :=
  match b with
  | mkBlock h c d =>
      d :: (if h then
              match c with
              | Some cs => flat_map document_order cs
              | None => []
              end
            else [])
  end.

(** The resolved URL of an image payload. *)
Definition image_url (d : BlockData) : list string :=
  match d with
  | ImageBlock image => [fc_url (parseFile image)]
  | _ => []
  end.

(** No image block has an image block below it. *)
Fixpoint images_above_no_image (b : Block) : bool :=
  match b with
  | mkBlock h c d =>
      match d with
      | ImageBlock _ =>
          match flat_map image_url
                  (flat_map walk_order (visited_children (mkBlock h c d)))
          with
          | [] => true
          | _ :: _ => false
          end
      | _ => true
      end
      && (if h then
            match c with
            | Some cs => forallb images_above_no_image cs
            | None => true
            end
          else true)
  end.

(** The state behind the lookup after it has served the given URLs one
    after the other: each call starts from the state the previous one
    left. *)
Definition lookups_in_sequence {Env}
  (lookup : option (string -> Env -> LookupOutcome * Env))
  (urls : list string) (e : Env) : Env :=
  match lookup with
  | Some f => fold_left (fun state url => snd (f url state)) urls e
  | None => e
  end.

(** A computation fails on a world when it throws there. *)
Definition fails {Env A} (m : Async Env A) (w : World Env) : Prop :=
  exists e w', m w = (Throw e, w').

(** Payloads on which the iteration of the loop fails whatever the
    children gave. *)
Definition always_fails {Env}
  (processExternalVideoUrl : string -> bool * string)
  (parserOptions : NotionBlocksMarkdownParserOptions Env)
  (d : BlockData) : Prop :=
  forall parse depth markdown h c (w : World Env),
    fails (loop_body processExternalVideoUrl parserOptions parse depth
             markdown (mkBlock h c d)) w.


(** [Issues parserOptions m urls]: on every world, [m] passes to the lookup
    a prefix of [urls], in that order and after the lookups already made,
    and all of [urls] when it returns a value; the state behind the lookup
    is the one these calls leave when made one after the other. *)
Definition Issues {Env A}
  (parserOptions : NotionBlocksMarkdownParserOptions Env)
  (m : Async Env A) (urls : list string) : Prop :=
  forall w,
    exists issued,
      lookups (snd (m w)) = (lookups w ++ issued)%list
      /\ env (snd (m w))
         = lookups_in_sequence (getImageSize parserOptions) issued (env w)
      /\ (exists rest, urls = (issued ++ rest)%list)
      /\ (forall a, fst (m w) = Ok a -> issued = urls).

(** Whether a replacement text contains one of the patterns that
    [getSubstitution] expands. *)
Fixpoint has_substitution_pattern (s : string) : bool :=
  match s with
  | "" => false
  | String c rest =>
      (Ascii.eqb c "$"
       && match rest with
          | String d _ =>
              Ascii.eqb d "$" || Ascii.eqb d "&" || Ascii.eqb d "`"
              || Ascii.eqb d "'"
          | "" => false
          end)
      || has_substitution_pattern rest
  end.

Fixpoint contains_char (c : ascii) (s : string) : bool :=
  match s with
  | "" => false
  | String a s' => Ascii.eqb a c || contains_char c s'
  end.



(** The two errors of the image renderer, by the names the specification
    gives them. *)
Definition ConfigurationError : Exception :=
  Error "parserOptions.getImageSize is required if parserOptions.addImageSizeToAltText is true".

Definition ValidationError : Exception :=
  Error "Could not find width/height for image".

(** What the specification says of annotation composition: the same
    nesting, with the colour wrapper written [data-color]. *)
Definition wrap_if (on : bool) (opening closing x : string) : string :=
  if on then opening ++ x ++ closing else x.

Definition applyAnnotations_spec (a : AnnotationFields) (x : string)
  : string :=
  let inner :=
    wrap_if (code a) "`" "`"
      (wrap_if (underline a) "<u>" "</u>"
         (wrap_if (strikethrough a) "~~" "~~"
            (wrap_if (italic a) "_" "_"
               (wrap_if (bold a) "**" "**" x)))) in
  if negb (color a =? "default")
  then "<span data-color='" ++ color a ++ "'>" ++ inner ++ "</span>"
  else inner.


(** A computation that leaves the world as it found it: no lookup is
    issued and the state behind the lookup is untouched. *)
Definition leaves_world {Env A} (m : Async Env A) : Prop :=
  forall w, snd (m w) = w.


(** The kinds whose text is written as prefix, own text, children text:
    every enumerated kind but the toggle. *)
Definition children_follow (d : BlockData) : bool :=
  match d with
  | ToggleBlock _ => false
  | OtherBlock _ _ _ => false
  | _ => true
  end.

(** The number of a heading level. *)
Definition level_number (l : HeadingLevel) : nat :=
  match l with
  | heading_1 => 1
  | heading_2 => 2
  | heading_3 => 3
  end.

Definition line_break_free (s : string) : Prop :=
  contains_char LF s = false.

(** The renderer the walker calls for a payload, kind by kind: the block
    renderer of each kind, the fixed texts of the unsupported and divider
    kinds, the heading renderer for a block outside the enumerated kinds
    whose tag begins with [heading_], and nothing for any other block. *)
Definition rendered {Env}
  (processExternalVideoUrl : string -> bool * string)
  (parserOptions : NotionBlocksMarkdownParserOptions Env)
  (d : BlockData) : Async Env string :=
  match d with
  | UnsupportedBlock => ret ("NotionAPI Unsupported" ++ repeat EOL_MD 2)
  | ParagraphBlock _ => lift (parseParagraph parserOptions d)
  | CodeBlock _ _ => lift (parseCodeBlock d)
  | QuoteBlock _ => lift (parseQuoteBlock d)
  | CalloutBlock _ _ => lift (parseCalloutBlock d)
  | HeadingBlock level _ => lift (parseHeading d (Some (level_number level)))
  | BulletedListItemBlock _ => lift (parseBulletedListItems d)
  | NumberedListItemBlock _ => lift (parseNumberedListItems d)
  | ToDoBlock _ _ => lift (parseTodoBlock d)
  | ToggleBlock _ => lift (parseToggleBlock d)
  | ImageBlock _ => parseImageBlock parserOptions d
  | EmbedBlock _ _ => lift (parseEmbedBlock d)
  | AudioBlock _ => lift (parseAudioBlock d)
  | VideoBlock _ => lift (parseVideoBlock processExternalVideoUrl d)
  | FileBlock _ => lift (parseFileBlock d)
  | PDFBlock _ => lift (parsePdfBlock d)
  | DividerBlock => ret (EOL_MD ++ "---" ++ EOL_MD)
  | OtherBlock type _ _ =>
      if startsWith type "heading_"
      then lift (parseHeading d (headingLevel_of type))
      else ret ""
  end.

(** Where the rendered text [s] of a payload and the text of its children
    go: after the prefix of [depth] spaces, the children text following the
    rendered text, or replacing the placeholder of a toggle; nothing is
    written for a block that no branch of the walker takes. *)
Definition placed (depth : nat) (d : BlockData) (s childBlockString : string)
  : string :=
  match d with
  | ToggleBlock _ =>
      repeat " " depth ++ replace s "{{childBlock}}" childBlockString
  | OtherBlock type _ _ =>
      if startsWith type "heading_"
      then repeat " " depth ++ s ++ childBlockString
      else ""
  | _ => repeat " " depth ++ s ++ childBlockString
  end.

(** The renderers of a list of payloads run one after the other, the
    texts dropped: what is left is whether and with what exception the
    run stops, and the world it ends in. *)
Definition renders {Env}
  (processExternalVideoUrl : string -> bool * string)
  (parserOptions : NotionBlocksMarkdownParserOptions Env)
  (payloads : list BlockData) : Async Env unit :=
  for_of
    (fun (_ : unit) d =>
       _ <- rendered processExternalVideoUrl parserOptions d ;; ret tt)
    payloads tt.

(** Sample values used by the examples. *)
Definition plain : Annotations :=
  in_listed_order
    {| bold := false; italic := false; strikethrough := false;
       underline := false; code := false; color := "default" |}.

Definition plain_text_run (s : string) : RichTextText :=
  {| text_annotations := plain; text_plain_text := s;
     text := {| content := s; link := None |} |}.

Definition leaf (d : BlockData) : Block := mkBlock false None d.

Definition no_video (url : string) : bool * string := (false, url).

Definition empty_world : World unit := {| lookups := []; env := tt |}.

(** The options a parser built without arguments has. *)
Definition default_options : NotionBlocksMarkdownParserOptions unit :=
  parserOptions (constructor None).

(** Options with the size-in-caption path active and a lookup that
    resolves every URL to the given size. *)
Definition sized_options (width height : option Z)
  : NotionBlocksMarkdownParserOptions unit :=
  {| imageAsFigure := false;
     addImageSizeToAltText := true;
     getImageSize := Some (fun _ e => (Resolved width height, e));
     emptyParagraphToNonBreakingSpace := false |}.

Unset Implicit Arguments.

(* ================================================================== *)
(** ** Strings: facts about the primitives *)
(* ================================================================== *)

Lemma append_empty_r (s : string) : s ++ "" = s.
Proof. induction s as [|c s IH]; simpl; [reflexivity | now rewrite IH]. Qed.

Lemma append_assoc (s t u : string) : (s ++ t) ++ u = s ++ (t ++ u).
Proof. induction s as [|c s IH]; simpl; [reflexivity | now rewrite IH]. Qed.

Lemma or_empty_same (s : string) : (if s =? "" then "" else s) = s.
Proof. destruct s; reflexivity. Qed.

Lemma length_app (s t : string) :
  String.length (s ++ t) = String.length s + String.length t.
Proof. induction s as [|c s IH]; simpl; [reflexivity | now rewrite IH]. Qed.

Lemma take_app (s t : string) (n : nat) :
  take (String.length s + n) (s ++ t) = s ++ take n t.
Proof. induction s as [|c s IH]; simpl; [reflexivity | now rewrite IH]. Qed.

Lemma take_all (s t : string) : take (String.length s) (s ++ t) = s.
Proof.
  rewrite <- (Nat.add_0_r (String.length s)), take_app.
  destruct t; simpl; apply append_empty_r.
Qed.

Lemma drop_app (s t : string) (n : nat) :
  drop (String.length s + n) (s ++ t) = drop n t.
Proof. induction s as [|c s IH]; simpl; [reflexivity | exact IH]. Qed.

(** A pattern cannot reach across a character it does not contain. *)
Lemma prefix_app_delimiter (c : ascii) (pattern s t : string) :
  contains_char c pattern = false ->
  String.prefix pattern (s ++ String c t) = String.prefix pattern s.
Proof.
  revert s. induction pattern as [|a pattern IH]; intros s Hfree.
  - destruct s; reflexivity.
  - simpl in Hfree. apply orb_false_elim in Hfree as [Hac Hfree].
    destruct s as [|b s]; simpl.
    + destruct (ascii_dec a c) as [->|Hneq]; [| reflexivity].
      now rewrite Ascii.eqb_refl in Hac.
    + destruct (ascii_dec a b); [now apply IH | reflexivity].
Qed.

Lemma indexOf_none_inv (c : ascii) (s pattern : string) :
  indexOf (String c s) pattern = None ->
  String.prefix pattern (String c s) = false /\ indexOf s pattern = None.
Proof.
  intros H. change (indexOf (String c s) pattern)
    with (if String.prefix pattern (String c s) then Some 0
          else option_map S (indexOf s pattern)) in H.
  destruct (String.prefix pattern (String c s)); [discriminate |].
  split; [reflexivity |].
  destruct (indexOf s pattern); [discriminate | reflexivity].
Qed.

(** The first occurrence of a pattern that does not occur in [s] and does
    not contain [c], in [s] followed by [c] and more. *)
Lemma indexOf_app_delimiter (c : ascii) (pattern s t : string) :
  contains_char c pattern = false ->
  indexOf s pattern = None ->
  indexOf (s ++ String c t) pattern
  = option_map (Nat.add (String.length s)) (indexOf (String c t) pattern).
Proof.
  intros Hfree. induction s as [|b s IH]; intros Hnone.
  - simpl (_ ++ _). simpl String.length.
    destruct (indexOf (String c t) pattern); reflexivity.
  - apply indexOf_none_inv in Hnone as [Hprefix Hnone].
    change (indexOf (String b s ++ String c t) pattern)
      with (if String.prefix pattern (String b s ++ String c t) then Some 0
            else option_map S (indexOf (s ++ String c t) pattern)).
    rewrite (prefix_app_delimiter c pattern (String b s) t Hfree), Hprefix.
    rewrite (IH Hnone).
    destruct (indexOf (String c t) pattern); reflexivity.
Qed.

(** A replacement text without substitution patterns is inserted as it
    is. *)
Lemma getSubstitution_plain (matched before after replacement : string) :
  has_substitution_pattern replacement = false ->
  getSubstitution matched before after replacement = replacement.
Proof.
  induction replacement as [|c rest IH]; intros Hplain.
  - reflexivity.
  - simpl in Hplain. apply orb_false_elim in Hplain as [Hhere Hrest].
    specialize (IH Hrest).
    simpl. destruct (Ascii.eqb c "$") eqn:Hdollar.
    + destruct rest as [|d rest'].
      * apply Ascii.eqb_eq in Hdollar. now subst c.
      * simpl in Hhere.
        apply orb_false_elim in Hhere as [Hhere Hquote].
        apply orb_false_elim in Hhere as [Hhere Hbacktick].
        apply orb_false_elim in Hhere as [Hdd Hamp].
        rewrite Hdd, Hamp, Hbacktick, Hquote.
        now rewrite IH.
    + now rewrite IH.
Qed.

(** Replacing a pattern whose first occurrence is the hole between [pre]
    and [post]. *)
Lemma replace_hole (pre pattern post replacement : string) :
  indexOf (pre ++ pattern ++ post) pattern = Some (String.length pre) ->
  has_substitution_pattern replacement = false ->
  replace (pre ++ pattern ++ post) pattern replacement
  = pre ++ replacement ++ post.
Proof.
  intros Hindex Hplain. unfold replace. rewrite Hindex.
  rewrite take_all, getSubstitution_plain by exact Hplain.
  rewrite drop_app.
  rewrite <- (Nat.add_0_r (String.length pattern)), drop_app.
  reflexivity.
Qed.

(** The first occurrence of a pattern in a text that starts with a
    stretch free of the pattern's first character. *)
Lemma indexOf_app_no_first (a : ascii) (pattern pre s : string) :
  contains_char a pre = false ->
  indexOf (pre ++ s) (String a pattern)
  = option_map (Nat.add (String.length pre)) (indexOf s (String a pattern)).
Proof.
  induction pre as [|b pre IH]; intros Hfree.
  - simpl (_ ++ _). simpl String.length.
    destruct (indexOf s (String a pattern)); reflexivity.
  - simpl in Hfree. apply orb_false_elim in Hfree as [Hba Hfree].
    change (indexOf (String b pre ++ s) (String a pattern))
      with (if String.prefix (String a pattern) (String b (pre ++ s))
            then Some 0
            else option_map S (indexOf (pre ++ s) (String a pattern))).
    assert (Hprefix :
              String.prefix (String a pattern) (String b (pre ++ s)) = false).
    { simpl. destruct (ascii_dec a b) as [->|Hneq]; [| reflexivity].
      now rewrite Ascii.eqb_refl in Hba. }
    rewrite Hprefix, (IH Hfree).
    destruct (indexOf s (String a pattern)); reflexivity.
Qed.

Lemma indexOf_toggle_tail :
  indexOf "</summary>{{childBlock}}</details>" "{{childBlock}}" = Some 10.
Proof. vm_compute. reflexivity. Qed.

(** The template of the toggle renderer with its hole filled. *)
Lemma replace_toggle_template (summary childBlockString : string) :
  indexOf summary "{{childBlock}}" = None ->
  has_substitution_pattern childBlockString = false ->
  replace ("<details><summary>" ++ summary
             ++ "</summary>{{childBlock}}</details>")
          "{{childBlock}}" childBlockString
  = "<details><summary>" ++ summary ++ "</summary>"
      ++ childBlockString ++ "</details>".
Proof.
  intros Hsummary Hplain.
  assert (Hsplit :
    "<details><summary>" ++ summary ++ "</summary>{{childBlock}}</details>"
    = ("<details><summary>" ++ summary ++ "</summary>")
        ++ "{{childBlock}}" ++ "</details>").
  { rewrite !append_assoc. reflexivity. }
  rewrite Hsplit, replace_hole; [| | exact Hplain].
  - rewrite !append_assoc. reflexivity.
  - rewrite <- Hsplit.
    rewrite (indexOf_app_no_first "{" "{childBlock}}" "<details><summary>"
               (summary ++ "</summary>{{childBlock}}</details>") eq_refl).
    rewrite (indexOf_app_delimiter "<" "{{childBlock}}" summary
               "/summary>{{childBlock}}</details>" eq_refl Hsummary).
    rewrite indexOf_toggle_tail, !length_app.
    unfold option_map. f_equal.
Qed.

(* ================================================================== *)
(** ** Annotation composition *)
(* ================================================================== *)

(** C1 (as stated, refuted): the nesting follows the key order of the
    object, not a fixed order: with the keys italic then bold, both on,
    bold is the outer wrapper, where the specification has italic outside.
    And the colour wrapper is written with the attribute [notion-color],
    not [data-color]. *)
Lemma annotate_key_order_and_color_attribute :
  annotate [(key_italic, Flag true); (key_bold, Flag true)] "x" = "**_x_**"
  /\ applyAnnotations_spec
       {| bold := true; italic := true; strikethrough := false;
          underline := false; code := false; color := "default" |} "x"
     = "_**x**_"
  /\ annotate
       (in_listed_order
          {| bold := false; italic := false; strikethrough := false;
             underline := false; code := false; color := "red" |}) "x"
     = "<span notion-color='red'>x</span>"
  /\ annotate
       (in_listed_order
          {| bold := false; italic := false; strikethrough := false;
             underline := false; code := false; color := "red" |}) "x"
     <> applyAnnotations_spec
          {| bold := false; italic := false; strikethrough := false;
             underline := false; code := false; color := "red" |} "x".
Proof.
  repeat split; try reflexivity.
  apply String.eqb_neq. reflexivity.
Qed.

(** C1 (amended): [annotate] wraps in the key order of the annotations
    object: a later key, when its value is truthy, wraps around the result
    of the earlier ones and is skipped otherwise, with the wrappers
    [**x**], [_x_], [~~x~~], [<u>x</u>], [`x`] and, unless the colour is
    ["default"], [<span notion-color='C'>x</span>].  For an object whose
    keys come in the order bold, italic, strikethrough, underline, code,
    color this is the nesting of the specification, the colour wrapper
    outermost and applied when the colour is neither ["default"] nor
    empty; bold and italic on ["x"] give ["_**x**_"]. *)
Theorem annotate_in_key_order :
  (forall x, annotate [] x = x)
  /\ (forall (earlier : Annotations) key value x,
        annotate (earlier ++ [(key, value)])%list x
        = if truthy value
          then annotateModifier key (annotate earlier x) value
          else annotate earlier x)
  /\ (forall x value,
        annotateModifier key_bold x value = "**" ++ x ++ "**"
        /\ annotateModifier key_italic x value = "_" ++ x ++ "_"
        /\ annotateModifier key_strikethrough x value = "~~" ++ x ++ "~~"
        /\ annotateModifier key_underline x value = "<u>" ++ x ++ "</u>"
        /\ annotateModifier key_code x value = "`" ++ x ++ "`")
  /\ (forall x C,
        annotateModifier key_color x (ColorName C)
        = if C =? "default" then x
          else "<span notion-color='" ++ C ++ "'>" ++ x ++ "</span>")
  /\ (forall (a : AnnotationFields) x,
        annotate (in_listed_order a) x
        = let inner :=
            wrap_if (code a) "`" "`"
              (wrap_if (underline a) "<u>" "</u>"
                 (wrap_if (strikethrough a) "~~" "~~"
                    (wrap_if (italic a) "_" "_"
                       (wrap_if (bold a) "**" "**" x)))) in
          if (color a =? "") || (color a =? "default") then inner
          else "<span notion-color='" ++ color a ++ "'>" ++ inner
                 ++ "</span>")
  /\ annotate
       (in_listed_order
          {| bold := true; italic := true; strikethrough := false;
             underline := false; code := false; color := "default" |})
       "x" = "_**x**_".
Proof.
  split; [reflexivity |].
  split.
  { intros earlier key value x. unfold annotate.
    rewrite fold_left_app. reflexivity. }
  split; [intros x value; repeat split |].
  split.
  { intros x C. unfold annotateModifier, value_to_string.
    now destruct (C =? "default"). }
  split; [| reflexivity].
  intros [b i s u c col] x.
  unfold annotate, in_listed_order, wrap_if; simpl.
  destruct b, i, s, u, c; simpl;
    destruct (col =? "") eqn:Hempty; simpl;
    try reflexivity;
    destruct (col =? "default"); reflexivity.
Qed.

(* ================================================================== *)
(** ** Text spans and links *)
(* ================================================================== *)

(** C7 (as stated, refuted): with an empty URL the two representations of
    a link do not resolve to the same target.  The nested object is truthy
    but its [url] is not, so the object itself is converted to text; the
    direct value is falsy and no link is written at all. *)
Lemma parseText_empty_url_forms_differ :
  parseText {| text_annotations := plain; text_plain_text := "x";
               text := {| content := "x";
                          link := Some (LinkObject "") |} |}
  = "[x]([object Object])"
  /\ parseText {| text_annotations := plain; text_plain_text := "x";
                  text := {| content := "x";
                             link := Some (LinkUrl "") |} |}
     = "x".
Proof. split; reflexivity. Qed.

(** C7 (amended): a text span whose link has a non-empty URL renders as
    [[annotated](url)], whether the link is a nested object carrying the
    URL or the URL itself; a text span with no link renders as the
    annotated content alone. *)
Theorem parseText_link (ann : Annotations) (plain_text c url : string) :
  url <> "" ->
  let annotated := annotate ann c in
  let span l := {| text_annotations := ann; text_plain_text := plain_text;
                   text := {| content := c; link := l |} |} in
  parseText (span (Some (LinkObject url)))
    = "[" ++ annotated ++ "](" ++ url ++ ")"
  /\ parseText (span (Some (LinkUrl url)))
     = "[" ++ annotated ++ "](" ++ url ++ ")"
  /\ parseText (span None) = annotated.
Proof.
  intros Hurl annotated span.
  apply String.eqb_neq in Hurl.
  unfold parseText, annotateLink, link_target, span; simpl.
  rewrite Hurl; simpl.
  repeat split; reflexivity.
Qed.

Lemma parseText_link_witness :
  parseText {| text_annotations := plain; text_plain_text := "x";
               text := {| content := "x";
                          link := Some (LinkObject "u") |} |}
  = "[x](u)"
  /\ parseText {| text_annotations := plain; text_plain_text := "x";
                  text := {| content := "x";
                             link := Some (LinkUrl "u") |} |}
     = "[x](u)".
Proof.
  assert (H : "u" <> "") by discriminate.
  destruct (parseText_link plain "x" "x" "u" H) as (Hobj & Hdirect & _).
  split; [exact Hobj | exact Hdirect].
Defined.

(* ================================================================== *)
(** ** File resolution *)
(* ================================================================== *)

(** C8: [parseFile] takes the URL from the [url] field of the external or
    of the hosted variant, and the caption is the rendered rich text of
    the caption sequence when one is present, else the URL. *)
Theorem parseFile_url_and_caption (url : string) (c : list RichText) :
  parseFile {| source := external url; caption := Some c |}
    = {| fc_caption := parseRichTexts c; fc_url := url |}
  /\ parseFile {| source := file url; caption := Some c |}
     = {| fc_caption := parseRichTexts c; fc_url := url |}
  /\ parseFile {| source := external url; caption := None |}
     = {| fc_caption := url; fc_url := url |}
  /\ parseFile {| source := file url; caption := None |}
     = {| fc_caption := url; fc_url := url |}.
Proof. repeat split; reflexivity. Qed.

(* ================================================================== *)
(** ** The code renderer *)
(* ================================================================== *)

(** C5: a code block with a language tag and at least one run renders as a
    fence whose info string is the tag in lower case (empty for an empty
    tag) and whose body is the raw content of the first run only, followed
    by a line break; the other runs do not appear.  On a code block whose
    language tag is absent the renderer does not give the empty info
    string: [toLowerCase] is called on the absent tag, before the guard
    [|| ''] can apply, and the render throws. *)
Theorem parseCodeBlock_first_run (language : string)
  (first : RichTextText) (others : list RichTextText) :
  parseCodeBlock (CodeBlock (Some language) (first :: others))
    = Ok (("```" ++ toLowerCase language ++ EOL_MD
             ++ content (text first) ++ EOL_MD ++ "```") ++ EOL_MD)
  /\ parseCodeBlock (CodeBlock (Some "") (first :: others))
     = Ok (("```" ++ EOL_MD ++ content (text first) ++ EOL_MD ++ "```")
             ++ EOL_MD)
  /\ parseCodeBlock (CodeBlock (Some language) (first :: others))
     = parseCodeBlock (CodeBlock (Some language) [first])
  /\ parseCodeBlock
       (CodeBlock (Some "JavaScript") [plain_text_run "let x = 1;"])
     = Ok ("```javascript" ++ EOL_MD ++ "let x = 1;" ++ EOL_MD ++ "```"
             ++ EOL_MD)
  /\ parseCodeBlock (CodeBlock None (first :: others)) = Throw TypeError
  /\ parse no_video default_options
       [leaf (CodeBlock None [plain_text_run "let x = 1;"])] 0 empty_world
     = (Throw TypeError, empty_world).
Proof.
  repeat split; try reflexivity.
  unfold parseCodeBlock. now rewrite or_empty_same.
Qed.

(* ================================================================== *)
(** ** The singleton accessor *)
(* ================================================================== *)




(* ================================================================== *)
(** ** The rendering monad and the loop *)
(* ================================================================== *)

(** Induction over blocks that reaches the children. *)
Lemma Block_forall_ind (P : Block -> Prop) :
  (forall h d, P (mkBlock h None d)) ->
  (forall h cs d, Forall P cs -> P (mkBlock h (Some cs) d)) ->
  forall b, P b.
Proof.
  intros Hnone Hsome.
  fix IH 1.
  intros [h [cs|] d].
  - apply Hsome.
    induction cs as [|c cs IHcs]; constructor; [apply IH | exact IHcs].
  - apply Hnone.
Qed.

Section Monad_facts.

Context {Env : Type}.

Lemma bind_ok {A B} (m : Async Env A) (k : A -> Async Env B) w a w' :
  m w = (Ok a, w') -> bind m k w = k a w'.
Proof. intros H. unfold bind. now rewrite H. Qed.

Lemma bind_throw {A B} (m : Async Env A) (k : A -> Async Env B) w e w' :
  m w = (Throw e, w') -> bind m k w = (Throw e, w').
Proof. intros H. unfold bind. now rewrite H. Qed.

Lemma bind_fails {A B} (m : Async Env A) (k : A -> Async Env B) w :
  fails m w -> fails (bind m k) w.
Proof.
  intros (e & w' & H). exists e, w'. now apply bind_throw.
Qed.

Lemma bind_ext {A B} (m : Async Env A) (k1 k2 : A -> Async Env B) w :
  (forall a w', k1 a w' = k2 a w') -> bind m k1 w = bind m k2 w.
Proof.
  intros H. unfold bind. destruct (m w) as [[a|e] w']; [apply H | reflexivity].
Qed.

Lemma bind_ext_l {A B} (m1 m2 : Async Env A) (k : A -> Async Env B) w :
  m1 w = m2 w -> bind m1 k w = bind m2 k w.
Proof. intros H. unfold bind. now rewrite H. Qed.

Lemma bind_ret_l {A B} (a : A) (k : A -> Async Env B) w :
  bind (ret a) k w = k a w.
Proof. reflexivity. Qed.

Lemma bind_assoc {A B C} (m : Async Env A) (k : A -> Async Env B)
  (k' : B -> Async Env C) w :
  bind (bind m k) k' w = bind m (fun a => bind (k a) k') w.
Proof.
  unfold bind. destruct (m w) as [[a|e] w']; reflexivity.
Qed.

Lemma for_of_cons {A S} (body : S -> A -> Async Env S) x xs s w :
  for_of body (x :: xs) s w
  = bind (body s x) (fun s' => for_of body xs s') w.
Proof. reflexivity. Qed.

Lemma for_of_app {A S} (body : S -> A -> Async Env S) (xs ys : list A) s w :
  for_of body (xs ++ ys) s w
  = bind (for_of body xs s) (fun s' => for_of body ys s') w.
Proof.
  revert s w. induction xs as [|x xs IH]; intros s w; simpl.
  - reflexivity.
  - rewrite bind_assoc. apply bind_ext. intros s' w'. apply IH.
Qed.

End Monad_facts.

(* ================================================================== *)
(** ** The walker: unfolding and failure *)
(* ================================================================== *)

Section Walker_facts.

Context {Env : Type}.
Variable processExternalVideoUrl : string -> bool * string.
Variable parserOptions : NotionBlocksMarkdownParserOptions Env.

#[local] Abbreviation parse' :=
  (parse processExternalVideoUrl parserOptions).
#[local] Abbreviation parse_block' :=
  (parse_block processExternalVideoUrl parserOptions).
#[local] Abbreviation loop_body' :=
  (loop_body processExternalVideoUrl parserOptions).

Lemma parse_block_unfold depth markdown childBlock :
  parse_block' depth markdown childBlock
  = loop_body' parse' depth markdown childBlock.
Proof. destruct childBlock; reflexivity. Qed.

(** A failure of the children is a failure of the block. *)
Lemma loop_body_children_fail parse depth markdown b w :
  fails (childBlockString_of parse depth b) w ->
  fails (loop_body' parse depth markdown b) w.
Proof. intros H. unfold loop_body. now apply bind_fails. Qed.

Lemma for_of_fails_of_member (P : BlockData -> Prop) depth :
  forall blocks,
    Forall (fun b => forall depth markdown w,
                Exists P (walk_order b) ->
                fails (parse_block' depth markdown b) w) blocks ->
    forall markdown w,
      Exists P (flat_map walk_order blocks) ->
      fails (for_of (parse_block' depth) blocks markdown) w.
Proof.
  induction 1 as [|b blocks Hb Hall IH]; intros markdown w Hex;
    simpl in Hex.
  - inversion Hex.
  - apply Exists_app in Hex.
    unfold fails. rewrite for_of_cons.
    destruct (parse_block' depth markdown b w) as [[m|e] w'] eqn:Hrun.
    + erewrite bind_ok by exact Hrun.
      destruct Hex as [Hhere | Hlater].
      * destruct (Hb depth markdown w Hhere) as (e & w'' & Hfail).
        rewrite Hrun in Hfail. discriminate.
      * now apply IH.
    + erewrite bind_throw by exact Hrun. now exists e, w'.
Qed.

Lemma parse_block_fails_of_member (P : BlockData -> Prop) :
  (forall d, P d -> always_fails processExternalVideoUrl parserOptions d) ->
  forall b depth markdown w,
    Exists P (walk_order b) ->
    fails (parse_block' depth markdown b) w.
Proof.
  intros HP.
  induction b as [h d | h cs d IH] using Block_forall_ind;
    intros depth markdown w Hex; rewrite parse_block_unfold; simpl in Hex.
  - assert (Hd : P d).
    { destruct h; simpl in Hex; inversion Hex as [? ? Hd | ? ? Hnil];
        [exact Hd | inversion Hnil | exact Hd | inversion Hnil]. }
    now apply HP.
  - apply Exists_app in Hex. destruct Hex as [Hbelow | Hown].
    + apply loop_body_children_fail.
      destruct h; [| inversion Hbelow].
      unfold childBlockString_of; simpl. unfold parse.
      apply bind_fails.
      now apply for_of_fails_of_member with (P := P).
    + inversion Hown as [? ? Hd | ? ? Hnil]; [| inversion Hnil].
      now apply HP.
Qed.

(** A document fails when the walker meets a payload that always fails. *)
Lemma parse_fails_of_member (P : BlockData -> Prop) :
  (forall d, P d -> always_fails processExternalVideoUrl parserOptions d) ->
  forall blocks depth w,
    Exists P (flat_map walk_order blocks) ->
    fails (parse' blocks depth) w.
Proof.
  intros HP blocks depth w Hex. unfold parse. apply bind_fails.
  apply for_of_fails_of_member with (P := P); [| exact Hex].
  apply Forall_forall. intros b _ depth' markdown w'.
  now apply parse_block_fails_of_member.
Qed.

Lemma code_without_runs_always_fails language :
  always_fails processExternalVideoUrl parserOptions (CodeBlock language []).
Proof.
  intros parse depth markdown h c w.
  unfold fails, loop_body.
  destruct (childBlockString_of parse depth
              (mkBlock h c (CodeBlock language [])) w)
    as [[s|e] w'] eqn:Hchildren.
  - erewrite bind_ok by exact Hchildren.
    exists TypeError, w'. destruct language; reflexivity.
  - erewrite bind_throw by exact Hchildren.
    exists e, w'. reflexivity.
Qed.

(** The iteration on an image block: children, then the image renderer,
    then one append. *)
Lemma loop_body_image parse depth markdown h c image w :
  loop_body' parse depth markdown (mkBlock h c (ImageBlock image)) w
  = bind (childBlockString_of parse depth (mkBlock h c (ImageBlock image)))
      (fun childBlockString =>
         bind (parseImageBlock parserOptions (ImageBlock image))
           (fun s =>
              ret (markdown ++ repeat " " depth ++ s ++ childBlockString)))
      w.
Proof.
  unfold loop_body. apply bind_ext. intros childBlockString w'.
  cbv zeta.
  change (data (mkBlock h c (ImageBlock image))) with (ImageBlock image).
  remember (parseImageBlock parserOptions (ImageBlock image)) as render.
  unfold append_if, bind; simpl.
  destruct (render w') as [[s|e] w'']; reflexivity.
Qed.

(** An exception of the image renderer, reached after the blocks before it
    and its own children rendered, is the outcome of the whole render. *)
Lemma parse_throws_at_image before h c image after depth w markdown w1
  s w2 e w3 :
  for_of (parse_block' depth) before "" w = (Ok markdown, w1) ->
  childBlockString_of parse' depth (mkBlock h c (ImageBlock image)) w1
    = (Ok s, w2) ->
  parseImageBlock parserOptions (ImageBlock image) w2 = (Throw e, w3) ->
  parse' (before ++ mkBlock h c (ImageBlock image) :: after) depth w
    = (Throw e, w3).
Proof.
  intros Hbefore Hchildren Himage.
  unfold parse. apply bind_throw.
  rewrite for_of_app. erewrite bind_ok by exact Hbefore.
  rewrite for_of_cons. apply bind_throw.
  rewrite parse_block_unfold, loop_body_image.
  erewrite bind_ok by exact Hchildren.
  now apply bind_throw.
Qed.

End Walker_facts.

(* ================================================================== *)
(** ** The walker's dispatch, kind by kind *)
(* ================================================================== *)

Section Dispatch.

Context {Env : Type}.
Variable processExternalVideoUrl : string -> bool * string.
Variable parserOptions : NotionBlocksMarkdownParserOptions Env.

#[local] Abbreviation parse' :=
  (parse processExternalVideoUrl parserOptions).
#[local] Abbreviation parse_block' :=
  (parse_block processExternalVideoUrl parserOptions).
#[local] Abbreviation rendered' :=
  (rendered processExternalVideoUrl parserOptions).
#[local] Abbreviation renders' :=
  (renders processExternalVideoUrl parserOptions).

(** The tag of a block outside the enumerated kinds passes none of the
    equality tests of the walker. *)
Lemma other_tag_not_enumerated type :
  other_tag type = true ->
  existsb (String.eqb type) enumerated_kinds = false.
Proof.
  unfold other_tag. intros H. apply andb_prop in H as [H _].
  now apply negb_true_iff in H.
Qed.

(** The chain of tests of the loop calls, for each payload, the renderer of
    its kind and appends the text placed after the prefix. *)
Lemma loop_body_by_kind parse depth markdown h c d w :
  loop_body processExternalVideoUrl parserOptions parse depth markdown
    (mkBlock h c d) w
  = bind (childBlockString_of parse depth (mkBlock h c d))
      (fun childBlockString =>
         bind (rendered' d)
           (fun s => ret (markdown ++ placed depth d s childBlockString)))
      w.
Proof.
  unfold loop_body at 1. apply bind_ext. intros childBlockString w'.
  destruct d;
    try (unfold placed, rendered, append_if, bind, ret, lift; simpl;
         reflexivity).
  - unfold placed, rendered, append_if, bind, ret, lift; simpl.
    now rewrite !append_assoc.
  - destruct language, rich_text;
      unfold placed, rendered, append_if, bind, ret, lift; simpl;
      reflexivity.
  - destruct level;
      unfold placed, rendered, append_if, bind, ret, lift; simpl;
      reflexivity.
  - cbv zeta; simpl data. unfold rendered.
    remember (parseImageBlock parserOptions (ImageBlock image)) as render.
    unfold placed, append_if, bind, ret, lift; simpl.
    destruct (render w') as [[s|e] w'']; reflexivity.
  - destruct embed_caption;
      unfold placed, rendered, append_if, bind, ret, lift; simpl;
      reflexivity.
  - unfold placed, rendered, append_if, bind, ret, lift, parseVideoBlock;
      simpl.
    destruct (processExternalVideoUrl _) as [[|] fragment]; reflexivity.
  - pose proof (other_tag_not_enumerated type other) as Hkinds.
    unfold enumerated_kinds, existsb in Hkinds.
    repeat (apply orb_false_elim in Hkinds as [? Hkinds]).
    cbv zeta.
    change (block_type (data (mkBlock h c (OtherBlock type rich_text other))))
      with type.
    change (data (mkBlock h c (OtherBlock type rich_text other)))
      with (OtherBlock type rich_text other).
    repeat match goal with
           | H : (type =? _) = false |- _ => rewrite H; clear H
           end.
    unfold placed, rendered.
    destruct (startsWith type "heading_").
    + destruct rich_text; reflexivity.
    + unfold append_if, bind, ret. now rewrite append_empty_r.
Qed.

Lemma bind_forget {A B} (m : Async Env A) (k : Async Env B) w :
  bind m (fun _ => k) w
  = bind (bind m (fun _ => ret tt)) (fun _ => k) w.
Proof. rewrite bind_assoc. apply bind_ext. reflexivity. Qed.

Lemma renders_app before after w :
  renders' (before ++ after)%list w
  = bind (renders' before) (fun _ => renders' after) w.
Proof.
  unfold renders. rewrite for_of_app.
  apply bind_ext. now intros [] w'.
Qed.

Lemma renders_one d w :
  renders' [d] w = bind (rendered' d) (fun _ => ret tt) w.
Proof.
  unfold renders. rewrite for_of_cons, bind_assoc.
  apply bind_ext. reflexivity.
Qed.

(** Whether a render returns or throws, with what exception and in what
    world, is what running the renderers of the payloads in the walker's
    order gives. *)
Lemma for_of_outcome depth blocks :
  Forall (fun b => forall depth markdown w,
            bind (parse_block' depth markdown b) (fun _ => ret tt) w
            = renders' (walk_order b) w) blocks ->
  forall markdown w,
    bind (for_of (parse_block' depth) blocks markdown) (fun _ => ret tt) w
    = renders' (flat_map walk_order blocks) w.
Proof.
  induction 1 as [|b blocks Hb Hall IH]; intros markdown w.
  - reflexivity.
  - simpl flat_map. rewrite renders_app.
    rewrite (bind_ext_l _ _ _ w
               (for_of_cons (parse_block' depth) b blocks markdown w)).
    rewrite bind_assoc.
    rewrite <- (bind_ext_l _ _ _ w (Hb depth markdown w)).
    rewrite bind_assoc. apply bind_ext. intros s w'.
    rewrite bind_ret_l. apply IH.
Qed.

Lemma parse_list_outcome depth blocks w :
  Forall (fun b => forall depth markdown w,
            bind (parse_block' depth markdown b) (fun _ => ret tt) w
            = renders' (walk_order b) w) blocks ->
  bind (parse' blocks depth) (fun _ => ret tt) w
  = renders' (flat_map walk_order blocks) w.
Proof.
  intros Hall. unfold parse. rewrite bind_assoc.
  rewrite <- (for_of_outcome depth blocks Hall "" w).
  apply bind_ext. reflexivity.
Qed.

Lemma parse_block_outcome b :
  forall depth markdown w,
    bind (parse_block' depth markdown b) (fun _ => ret tt) w
    = renders' (walk_order b) w.
Proof.
  induction b as [h d | h cs d IH] using Block_forall_ind;
    intros depth markdown w;
    rewrite parse_block_unfold;
    rewrite (bind_ext_l _ _ _ w
               (loop_body_by_kind parse' depth markdown h _ d w));
    rewrite !bind_assoc; simpl walk_order; rewrite renders_app.
  - assert (Hnone : childBlockString_of parse' depth (mkBlock h None d)
                    = ret "") by now destruct h.
    rewrite Hnone, bind_ret_l.
    assert (Hnil : renders' (if h then [] else []) = ret tt)
      by now destruct h.
    rewrite Hnil, bind_ret_l, renders_one, ?bind_assoc.
    apply bind_ext. reflexivity.
  - destruct h.
    + change (childBlockString_of parse' depth (mkBlock true (Some cs) d))
        with (parse' cs (depth + 2)).
      simpl (if true then _ else _).
      rewrite <- (bind_ext_l _ _ _ w (parse_list_outcome (depth + 2) cs w IH)).
      rewrite bind_assoc. apply bind_ext. intros s w'.
      rewrite bind_ret_l, renders_one, ?bind_assoc.
      apply bind_ext. reflexivity.
    + change (childBlockString_of parse' depth (mkBlock false (Some cs) d))
        with (ret (Env := Env) "").
      rewrite bind_ret_l.
      simpl (if false then _ else _).
      change (renders' []) with (ret (Env := Env) tt).
      rewrite bind_ret_l, renders_one, ?bind_assoc.
      apply bind_ext. reflexivity.
Qed.

Lemma parse_outcome blocks depth w :
  bind (parse' blocks depth) (fun _ => ret tt) w
  = renders' (flat_map walk_order blocks) w.
Proof.
  apply parse_list_outcome. apply Forall_forall.
  intros b _. apply parse_block_outcome.
Qed.

(** An exception of the renderers run in the walker's order is the
    exception of the render. *)
Lemma parse_throws_as_renders blocks depth w e w' :
  renders' (flat_map walk_order blocks) w = (Throw e, w') ->
  parse' blocks depth w = (Throw e, w').
Proof.
  intros Hrenders. rewrite <- (parse_outcome blocks depth w) in Hrenders.
  unfold bind in Hrenders.
  destruct (parse' blocks depth w) as [[s|e'] w''];
    [discriminate | now inversion Hrenders].
Qed.

End Dispatch.

(* ================================================================== *)
(** ** Code blocks without runs *)
(* ================================================================== *)

(** C9: the code renderer reads the first run unguarded.  On a code block
    with no run it throws, whatever the language tag; on a block with a
    language tag it returns a string exactly when there is a run; and the
    render of every document in which the walker meets a code block with
    no run fails. *)
Theorem parseCodeBlock_needs_a_run {Env}
  (processExternalVideoUrl : string -> bool * string)
  (parserOptions : NotionBlocksMarkdownParserOptions Env)
  (language : string) :
  (forall tag, parseCodeBlock (CodeBlock tag []) = Throw TypeError)
  /\ (forall rich_text,
        (exists s,
           parseCodeBlock (CodeBlock (Some language) rich_text) = Ok s)
        <-> rich_text <> [])
  /\ (forall tag blocks depth w,
        In (CodeBlock tag []) (flat_map walk_order blocks) ->
        fails (parse processExternalVideoUrl parserOptions blocks depth) w).
Proof.
  split; [intros [tag|]; reflexivity |]. split.
  - intros [|first others]; split.
    + intros (s & H). discriminate.
    + intros H. now contradiction H.
    + discriminate.
    + intros _. eexists. reflexivity.
  - intros tag blocks depth w Hin.
    apply parse_fails_of_member with (P := eq (CodeBlock tag [])).
    + intros d <-. apply code_without_runs_always_fails.
    + apply Exists_exists. now exists (CodeBlock tag []).
Qed.

Lemma parseCodeBlock_needs_a_run_witness :
  fails (parse no_video (sized_options (Some 10%Z) (Some 20%Z))
           [ leaf (ParagraphBlock []);
             mkBlock true (Some [leaf (CodeBlock (Some "c") [])])
                     (ToggleBlock []) ] 0)
        empty_world.
Proof.
  apply (proj2 (proj2 (parseCodeBlock_needs_a_run
                         no_video (sized_options (Some 10%Z) (Some 20%Z))
                         "c"))
           (Some "c")).
  simpl. right. left. reflexivity.
Defined.

(* ================================================================== *)
(** ** The image renderer on the size-in-alt-text path *)
(* ================================================================== *)

Section Image_facts.

Context {Env : Type}.
Variable processExternalVideoUrl : string -> bool * string.
Variable parserOptions : NotionBlocksMarkdownParserOptions Env.
Hypothesis not_figure : imageAsFigure parserOptions = false.
Hypothesis size_in_alt : addImageSizeToAltText parserOptions = true.

Lemma parseImageBlock_no_lookup image w :
  getImageSize parserOptions = None ->
  parseImageBlock parserOptions (ImageBlock image) w
  = (Throw ConfigurationError, w).
Proof.
  intros Hnone. unfold parseImageBlock.
  now rewrite not_figure, size_in_alt, Hnone.
Qed.

Lemma parseImageBlock_lookup image lookup w width height env' :
  getImageSize parserOptions = Some lookup ->
  lookup (fc_url (parseFile image)) (env w) = (Resolved width height, env') ->
  parseImageBlock parserOptions (ImageBlock image) w
  = (if number_falsy width || number_falsy height
     then Throw ValidationError
     else Ok (("![" ++ fc_caption (parseFile image) ++ "|"
                 ++ number_text width ++ "x" ++ number_text height
                 ++ "](" ++ fc_url (parseFile image) ++ ")") ++ EOL_MD),
     {| lookups := lookups w ++ [fc_url (parseFile image)]; env := env' |}).
Proof.
  intros Hsome Hlookup. unfold parseImageBlock.
  rewrite not_figure, size_in_alt, Hsome.
  unfold bind, await_getImageSize. rewrite Hlookup.
  destruct (number_falsy width || number_falsy height); reflexivity.
Qed.

Lemma image_without_lookup_always_fails image :
  getImageSize parserOptions = None ->
  always_fails processExternalVideoUrl parserOptions (ImageBlock image).
Proof.
  intros Hnone parse depth markdown h c w.
  unfold fails. rewrite loop_body_image.
  destruct (childBlockString_of parse depth
              (mkBlock h c (ImageBlock image)) w)
    as [[s|e] w'] eqn:Hchildren.
  - erewrite bind_ok by exact Hchildren.
    exists ConfigurationError, w'.
    apply bind_throw. now apply parseImageBlock_no_lookup.
  - erewrite bind_throw by exact Hchildren. now exists e, w'.
Qed.

End Image_facts.

(** C3: an image block rendered with [imageAsFigure] false and
    [addImageSizeToAltText] true.  Without a lookup function the renderer
    throws the configuration error, issuing no lookup.  When the lookup
    resolves with a missing or zero width or height it throws the
    validation error.  Otherwise it returns [![caption|WxH](url)] and a
    line break.  An exception of the renderer is the outcome of the whole
    render, no text being returned, wherever the image block is in the
    tree: once the renderers the walker runs before it have returned, the
    render ends with that very exception, in the world the renderer left.
    Without a lookup function every document in which the walker meets an
    image block fails. *)
Theorem parseImageBlock_size_in_alt_text {Env}
  (processExternalVideoUrl : string -> bool * string)
  (parserOptions : NotionBlocksMarkdownParserOptions Env)
  (image : FileValue) :
  imageAsFigure parserOptions = false ->
  addImageSizeToAltText parserOptions = true ->
  let url := fc_url (parseFile image) in
  let caption := fc_caption (parseFile image) in
  (getImageSize parserOptions = None ->
     forall w, parseImageBlock parserOptions (ImageBlock image) w
               = (Throw ConfigurationError, w))
  /\ (forall lookup w width height env',
        getImageSize parserOptions = Some lookup ->
        lookup url (env w) = (Resolved width height, env') ->
        let w' := {| lookups := lookups w ++ [url]; env := env' |} in
        ((width = None \/ width = Some 0%Z
          \/ height = None \/ height = Some 0%Z) ->
         parseImageBlock parserOptions (ImageBlock image) w
         = (Throw ValidationError, w'))
        /\ (forall W H,
              width = Some W -> height = Some H ->
              W <> 0%Z -> H <> 0%Z ->
              parseImageBlock parserOptions (ImageBlock image) w
              = (Ok (("![" ++ caption ++ "|" ++ number_to_string W ++ "x"
                        ++ number_to_string H ++ "](" ++ url ++ ")")
                       ++ EOL_MD), w')))
  /\ (forall before h c after depth w markdown w1 s w2 e w3,
        for_of (parse_block processExternalVideoUrl parserOptions depth)
               before "" w = (Ok markdown, w1) ->
        childBlockString_of (parse processExternalVideoUrl parserOptions)
          depth (mkBlock h c (ImageBlock image)) w1 = (Ok s, w2) ->
        parseImageBlock parserOptions (ImageBlock image) w2 = (Throw e, w3) ->
        parse processExternalVideoUrl parserOptions
              (before ++ mkBlock h c (ImageBlock image) :: after) depth w
        = (Throw e, w3))
  /\ (getImageSize parserOptions = None ->
      forall blocks depth w,
        In (ImageBlock image) (flat_map walk_order blocks) ->
        fails (parse processExternalVideoUrl parserOptions blocks depth) w)
  /\ (forall blocks depth w before after w1 e w2,
        flat_map walk_order blocks
        = (before ++ ImageBlock image :: after)%list ->
        renders processExternalVideoUrl parserOptions before w
        = (Ok tt, w1) ->
        parseImageBlock parserOptions (ImageBlock image) w1 = (Throw e, w2) ->
        parse processExternalVideoUrl parserOptions blocks depth w
        = (Throw e, w2)).
Proof.
  intros Hfigure Hsize url caption.
  split; [| split; [| split; [| split]]].
  - intros Hnone w. now apply parseImageBlock_no_lookup.
  - intros lookup w width height env' Hsome Hlookup w'.
    split.
    + intros Hzero. erewrite parseImageBlock_lookup by eassumption.
      assert (Hfalsy : number_falsy width || number_falsy height = true).
      { destruct Hzero as [-> | [-> | [-> | ->]]]; simpl;
          auto using orb_true_r. }
      now rewrite Hfalsy.
    + intros W H -> -> HW HH.
      erewrite parseImageBlock_lookup by eassumption. simpl.
      apply Z.eqb_neq in HW, HH. now rewrite HW, HH.
  - intros before h c after depth w markdown w1 s w2 e w3.
    apply parse_throws_at_image.
  - intros Hnone blocks depth w Hin.
    apply parse_fails_of_member with (P := eq (ImageBlock image)).
    + intros d <-. now apply image_without_lookup_always_fails.
    + apply Exists_exists. now exists (ImageBlock image).
  - intros blocks depth w before after w1 e w2 Horder Hbefore Himage.
    apply parse_throws_as_renders. rewrite Horder, renders_app.
    erewrite bind_ok by exact Hbefore.
    change (ImageBlock image :: after)
      with ([ImageBlock image] ++ after)%list.
    rewrite renders_app. apply bind_throw.
    rewrite renders_one. apply bind_throw. exact Himage.
Qed.

Lemma parseImageBlock_size_in_alt_text_witness :
  parseImageBlock (sized_options (Some 10%Z) (Some 20%Z))
    (ImageBlock {| source := external "u";
                   caption := Some [Text (plain_text_run "cap")] |})
    empty_world
  = (Ok ("![cap|10x20](u)" ++ EOL_MD), {| lookups := ["u"]; env := tt |})
  /\ parse no_video (sized_options (Some 0%Z) (Some 20%Z))
       [ leaf (ImageBlock {| source := external "u";
                             caption := Some [Text (plain_text_run "cap")] |}) ]
       0 empty_world
     = (Throw ValidationError, {| lookups := ["u"]; env := tt |})
  /\ parse no_video (sized_options (Some 0%Z) (Some 20%Z))
       [ leaf (ParagraphBlock [Text (plain_text_run "before")]);
         mkBlock true
           (Some [ mkBlock true
                     (Some [ leaf (ImageBlock
                                     {| source := external "u";
                                        caption :=
                                          Some [Text (plain_text_run "cap")]
                                     |}) ])
                     (ToggleBlock []) ])
           (QuoteBlock []);
         leaf DividerBlock ]
       0 empty_world
     = (Throw ValidationError, {| lookups := ["u"]; env := tt |}).
Proof.
  split; [| split].
  - destruct (parseImageBlock_size_in_alt_text no_video
                (sized_options (Some 10%Z) (Some 20%Z))
                {| source := external "u";
                   caption := Some [Text (plain_text_run "cap")] |}
                eq_refl eq_refl) as (_ & Hlookup & _).
    destruct (Hlookup (fun _ e => (Resolved (Some 10%Z) (Some 20%Z), e))
                empty_world (Some 10%Z) (Some 20%Z) tt eq_refl eq_refl)
      as (_ & Hok).
    apply (Hok 10%Z 20%Z eq_refl eq_refl); discriminate.
  - destruct (parseImageBlock_size_in_alt_text no_video
                (sized_options (Some 0%Z) (Some 20%Z))
                {| source := external "u";
                   caption := Some [Text (plain_text_run "cap")] |}
                eq_refl eq_refl) as (_ & Hlookup & Hpropagate & _).
    destruct (Hlookup (fun _ e => (Resolved (Some 0%Z) (Some 20%Z), e))
                empty_world (Some 0%Z) (Some 20%Z) tt eq_refl eq_refl)
      as (Hzero & _).
    apply (Hpropagate [] false None [] 0 empty_world "" empty_world ""
             empty_world ValidationError
             {| lookups := ["u"]; env := tt |} eq_refl eq_refl).
    apply Hzero. right. left. reflexivity.
  - destruct (parseImageBlock_size_in_alt_text no_video
                (sized_options (Some 0%Z) (Some 20%Z))
                {| source := external "u";
                   caption := Some [Text (plain_text_run "cap")] |}
                eq_refl eq_refl) as (_ & Hlookup & _ & _ & Hanywhere).
    destruct (Hlookup (fun _ e => (Resolved (Some 0%Z) (Some 20%Z), e))
                empty_world (Some 0%Z) (Some 20%Z) tt eq_refl eq_refl)
      as (Hzero & _).
    apply (Hanywhere
             [ leaf (ParagraphBlock [Text (plain_text_run "before")]);
               mkBlock true
                 (Some [ mkBlock true
                           (Some [ leaf (ImageBlock
                                           {| source := external "u";
                                              caption :=
                                                Some [Text
                                                        (plain_text_run
                                                           "cap")] |}) ])
                           (ToggleBlock []) ])
                 (QuoteBlock []);
               leaf DividerBlock ]
             0 empty_world
             [ParagraphBlock [Text (plain_text_run "before")]]
             [ToggleBlock []; QuoteBlock []; DividerBlock]
             empty_world ValidationError
             {| lookups := ["u"]; env := tt |} eq_refl eq_refl).
    apply Hzero. right. left. reflexivity.
Defined.

(* ================================================================== *)
(** ** Toggle blocks and the placeholder *)
(* ================================================================== *)

(** The iteration on a toggle block: children, then the template with the
    placeholder replaced by their text. *)
Lemma loop_body_toggle {Env}
  (processExternalVideoUrl : string -> bool * string)
  (parserOptions : NotionBlocksMarkdownParserOptions Env)
  parse depth markdown h c rich_text w :
  loop_body processExternalVideoUrl parserOptions parse depth markdown
    (mkBlock h c (ToggleBlock rich_text)) w
  = bind (childBlockString_of parse depth
            (mkBlock h c (ToggleBlock rich_text)))
      (fun childBlockString =>
         ret (markdown ++ repeat " " depth
                ++ replace ("<details><summary>" ++ parseRichTexts rich_text
                              ++ "</summary>{{childBlock}}</details>")
                     "{{childBlock}}" childBlockString))
      w.
Proof.
  unfold loop_body. apply bind_ext. intros childBlockString w'.
  reflexivity.
Qed.

(** C2 (as stated, refuted): the placeholder is replaced by a textual
    search.  When the summary contains the token, the occurrence in the
    summary is the one replaced and the token of the template stays in the
    output; when the text of the children contains [$&], that pattern is
    expanded to the token.  In both documents the output is not
    [<details><summary>S</summary>B</details>]. *)
Lemma toggle_placeholder_leaks :
  let hi := leaf (ParagraphBlock [Text (plain_text_run "hi")]) in
  let amp := leaf (ParagraphBlock [Text (plain_text_run "$&")]) in
  let B_hi := "  " ++ EOL_MD ++ "hi" ++ EOL_MD ++ EOL_MD in
  let B_amp := "  " ++ EOL_MD ++ "$&" ++ EOL_MD ++ EOL_MD in
  parse no_video default_options [hi] 2 empty_world = (Ok B_hi, empty_world)
  /\ parse no_video default_options
       [mkBlock true (Some [hi])
          (ToggleBlock [Text (plain_text_run "{{childBlock}}")])]
       0 empty_world
     = (Ok ("<details><summary>" ++ B_hi
              ++ "</summary>{{childBlock}}</details>" ++ EOL_MD),
        empty_world)
  /\ "<details><summary>" ++ B_hi ++ "</summary>{{childBlock}}</details>"
     <> "<details><summary>{{childBlock}}</summary>" ++ B_hi ++ "</details>"
  /\ parse no_video default_options [amp] 2 empty_world
     = (Ok B_amp, empty_world)
  /\ parse no_video default_options
       [mkBlock true (Some [amp]) (ToggleBlock [Text (plain_text_run "s")])]
       0 empty_world
     = (Ok ("<details><summary>s</summary>"
              ++ "  " ++ EOL_MD ++ "{{childBlock}}" ++ EOL_MD ++ EOL_MD
              ++ "</details>" ++ EOL_MD),
        empty_world)
  /\ "<details><summary>s</summary>"
       ++ "  " ++ EOL_MD ++ "{{childBlock}}" ++ EOL_MD ++ EOL_MD
       ++ "</details>"
     <> "<details><summary>s</summary>" ++ B_amp ++ "</details>".
Proof.
  cbv zeta.
  split; [vm_compute; reflexivity |].
  split; [vm_compute; reflexivity |].
  split; [apply String.eqb_neq; vm_compute; reflexivity |].
  split; [vm_compute; reflexivity |].
  split; [vm_compute; reflexivity |].
  apply String.eqb_neq; vm_compute; reflexivity.
Qed.

(** C2 (amended): for a toggle block whose rendered summary [S] does not
    contain the placeholder token and whose children's text [B] (their
    render at depth + 2, or empty when the walker does not recurse)
    contains none of the patterns [$$], [$&], [$`], [$'], the walker
    appends [prefix <details><summary>S</summary>B</details>]: the
    placeholder does not reach the output. *)
Theorem toggle_placeholder_substituted {Env}
  (processExternalVideoUrl : string -> bool * string)
  (parserOptions : NotionBlocksMarkdownParserOptions Env)
  (depth : nat) (markdown : string) (h : bool) (c : option (list Block))
  (rich_text : list RichText) (w w' : World Env) (B : string) :
  let S := parseRichTexts rich_text in
  let toggle := mkBlock h c (ToggleBlock rich_text) in
  (if h then
     match c with
     | Some cs => parse processExternalVideoUrl parserOptions cs (depth + 2)
     | None => ret ""
     end
   else ret "") w = (Ok B, w') ->
  indexOf S "{{childBlock}}" = None ->
  has_substitution_pattern B = false ->
  parse_block processExternalVideoUrl parserOptions depth markdown toggle w
  = (Ok (markdown ++ repeat " " depth
           ++ "<details><summary>" ++ S ++ "</summary>" ++ B
           ++ "</details>"), w')
  /\ parse processExternalVideoUrl parserOptions [toggle] depth w
     = (Ok ((repeat " " depth
               ++ "<details><summary>" ++ S ++ "</summary>" ++ B
               ++ "</details>") ++ EOL_MD), w').
Proof.
  intros S toggle Hchildren Hsummary Hplain.
  assert (Hblock : forall markdown',
    parse_block processExternalVideoUrl parserOptions depth markdown'
      toggle w
    = (Ok (markdown' ++ repeat " " depth
             ++ "<details><summary>" ++ S ++ "</summary>" ++ B
             ++ "</details>"), w')).
  { intros markdown'. unfold toggle.
    rewrite parse_block_unfold, loop_body_toggle.
    erewrite bind_ok by exact Hchildren.
    unfold ret. now rewrite replace_toggle_template. }
  split; [apply Hblock |].
  unfold parse.
  erewrite bind_ok
    by (rewrite for_of_cons; erewrite bind_ok by apply Hblock; reflexivity).
  reflexivity.
Qed.

Lemma toggle_placeholder_substituted_witness :
  parse no_video default_options
    [mkBlock true (Some [leaf (ParagraphBlock [Text (plain_text_run "hi")])])
       (ToggleBlock [Text (plain_text_run "more")])]
    0 empty_world
  = (Ok ("<details><summary>more</summary>"
           ++ ("  " ++ EOL_MD ++ "hi" ++ EOL_MD ++ EOL_MD)
           ++ "</details>" ++ EOL_MD),
     empty_world).
Proof.
  apply (proj2 (toggle_placeholder_substituted no_video default_options
                  0 "" true
                  (Some [leaf (ParagraphBlock [Text (plain_text_run "hi")])])
                  [Text (plain_text_run "more")]
                  empty_world empty_world
                  ("  " ++ EOL_MD ++ "hi" ++ EOL_MD ++ EOL_MD)
                  eq_refl eq_refl eq_refl)).
Defined.

(* ================================================================== *)
(** ** The walker's output is a concatenation *)
(* ================================================================== *)

Section Concatenation.

Context {Env : Type}.
Variable processExternalVideoUrl : string -> bool * string.
Variable parserOptions : NotionBlocksMarkdownParserOptions Env.








End Concatenation.




(* ================================================================== *)
(** ** The order of the image-size lookups *)
(* ================================================================== *)

Section Lookup_order.

Open Scope list_scope.

Context {Env : Type}.
Variable processExternalVideoUrl : string -> bool * string.
Variable parserOptions : NotionBlocksMarkdownParserOptions Env.
Hypothesis not_figure : imageAsFigure parserOptions = false.
Hypothesis size_in_alt : addImageSizeToAltText parserOptions = true.

#[local] Abbreviation parse' :=
  (parse processExternalVideoUrl parserOptions).
#[local] Abbreviation parse_block' :=
  (parse_block processExternalVideoUrl parserOptions).
#[local] Abbreviation Issues' := (Issues parserOptions).

Lemma lookups_in_sequence_nil (e : Env) :
  lookups_in_sequence (getImageSize parserOptions) [] e = e.
Proof. unfold lookups_in_sequence. now destruct (getImageSize _). Qed.

Lemma lookups_in_sequence_app us vs (e : Env) :
  lookups_in_sequence (getImageSize parserOptions) (us ++ vs) e
  = lookups_in_sequence (getImageSize parserOptions) vs
      (lookups_in_sequence (getImageSize parserOptions) us e).
Proof.
  unfold lookups_in_sequence.
  destruct (getImageSize _); [apply fold_left_app | reflexivity].
Qed.

Lemma Issues_ret {A} (a : A) : Issues' (ret a) [].
Proof.
  intros w. exists []. simpl. rewrite app_nil_r, lookups_in_sequence_nil.
  repeat (split; [reflexivity |]).
  split; [now exists [] | reflexivity].
Qed.

Lemma Issues_throw {A} (e : Exception) urls :
  Issues' (throw (A := A) e) urls.
Proof.
  intros w. exists []. simpl. rewrite app_nil_r, lookups_in_sequence_nil.
  repeat (split; [reflexivity |]).
  split; [now exists urls | discriminate].
Qed.

Lemma Issues_lift {A} (c : Completion A) : Issues' (lift c) [].
Proof.
  intros w. exists []. simpl. rewrite app_nil_r, lookups_in_sequence_nil.
  repeat (split; [reflexivity |]).
  split; [now exists [] | reflexivity].
Qed.

Lemma Issues_bind {A B} (m : Async Env A) (k : A -> Async Env B) us vs :
  Issues' m us -> (forall a, Issues' (k a) vs) ->
  Issues' (bind m k) (us ++ vs).
Proof.
  intros Hm Hk w.
  destruct (Hm w) as (i1 & Hlookups & Henv & (r1 & Hrest) & Hall).
  unfold bind. destruct (m w) as [[a|e] w1]; simpl in *.
  - specialize (Hall a eq_refl). subst i1.
    destruct (Hk a w1) as (i2 & Hlookups2 & Henv2 & (r2 & Hrest2) & Hall2).
    exists (us ++ i2).
    rewrite Hlookups2, Hlookups, app_assoc, Henv2, Henv,
      lookups_in_sequence_app.
    repeat (split; [reflexivity |]). split.
    + exists r2. now rewrite Hrest2, app_assoc.
    + intros b Hb. now rewrite (Hall2 b Hb).
  - exists i1.
    split; [exact Hlookups | split; [exact Henv | split; [| discriminate]]].
    exists (r1 ++ vs). now rewrite Hrest, app_assoc.
Qed.

Lemma Issues_bind_nil {A B} (m : Async Env A) (k : A -> Async Env B) vs :
  Issues' m [] -> (forall a, Issues' (k a) vs) -> Issues' (bind m k) vs.
Proof. intros Hm Hk. apply (Issues_bind m k [] vs Hm Hk). Qed.

Lemma Issues_append_if cond markdown rendered urls :
  Issues' rendered urls ->
  (cond = false -> urls = []) ->
  Issues' (append_if cond markdown rendered) urls.
Proof.
  intros Hrendered Hcond. unfold append_if. destruct cond.
  - rewrite <- (app_nil_r urls).
    apply Issues_bind; [exact Hrendered |]. intros s. apply Issues_ret.
  - rewrite (Hcond eq_refl). apply Issues_ret.
Qed.

(** A stage whose renderer is synchronous passes nothing to the lookup. *)
Lemma Issues_sync_stage cond markdown (rendered : Completion string)
  (wrap : string -> string) :
  Issues' (append_if cond markdown (bind (lift rendered)
                                     (fun s => ret (wrap s)))) [].
Proof.
  apply Issues_append_if; [| reflexivity].
  apply Issues_bind_nil; [apply Issues_lift |]. intros s. apply Issues_ret.
Qed.

Lemma Issues_const_stage cond markdown (s : string) :
  Issues' (append_if cond markdown (ret s)) [].
Proof. apply Issues_append_if; [apply Issues_ret | reflexivity]. Qed.

Lemma Issues_await lookup url :
  getImageSize parserOptions = Some lookup ->
  Issues' (await_getImageSize lookup url) [url].
Proof.
  intros Hsome w. exists [url]. rewrite Hsome. unfold await_getImageSize.
  simpl. destruct (lookup url (env w)) as [[width height | reason] e'];
    simpl; repeat (split; [reflexivity |]);
    (split; [now exists [] | reflexivity]).
Qed.

(** The image renderer passes the resolved URL of an image block, and
    nothing on any other payload. *)
Lemma Issues_parseImageBlock d :
  Issues' (parseImageBlock parserOptions d) (image_url d).
Proof.
  destruct d; try apply Issues_throw.
  unfold parseImageBlock, image_url.
  rewrite not_figure, size_in_alt.
  destruct (getImageSize parserOptions) as [lookup|] eqn:Hsome;
    [| apply Issues_throw].
  rewrite <- (app_nil_r [fc_url (parseFile image)]).
  apply Issues_bind; [now apply Issues_await |].
  intros [width height].
  destruct (number_falsy width || number_falsy height);
    [apply Issues_throw | apply Issues_ret].
Qed.

Lemma image_tag_of_url d :
  (block_type d =? "image") = false -> image_url d = [].
Proof. destruct d; try reflexivity. discriminate. Qed.

(** One iteration passes the URLs of the children, then the block's own. *)
Lemma Issues_loop_body parse depth markdown b urls :
  Issues' (childBlockString_of parse depth b) urls ->
  Issues' (loop_body processExternalVideoUrl parserOptions parse depth
             markdown b)
          (urls ++ image_url (data b)).
Proof.
  intros Hchildren. unfold loop_body. cbv zeta.
  apply Issues_bind; [exact Hchildren |]. intros childBlockString.
  apply Issues_bind_nil; [apply Issues_const_stage |]. intros m1.
  do 9 (apply Issues_bind_nil; [apply Issues_sync_stage |]; intros ?).
  rewrite <- (app_nil_r (image_url (data b))).
  apply Issues_bind.
  - apply Issues_append_if; [| apply image_tag_of_url].
    rewrite <- (app_nil_r (image_url (data b))).
    apply Issues_bind; [apply Issues_parseImageBlock |].
    intros s. apply Issues_ret.
  - intros m11.
    do 5 (apply Issues_bind_nil; [apply Issues_sync_stage |]; intros ?).
    apply Issues_bind_nil; [apply Issues_const_stage |]. intros m17.
    apply Issues_ret.
Qed.

Lemma Issues_for_of depth blocks :
  Forall (fun b => forall depth markdown,
            Issues' (parse_block' depth markdown b)
                    (flat_map image_url (walk_order b))) blocks ->
  forall markdown,
    Issues' (for_of (parse_block' depth) blocks markdown)
            (flat_map image_url (flat_map walk_order blocks)).
Proof.
  induction 1 as [|b blocks Hb Hall IH]; intros markdown.
  - apply Issues_ret.
  - simpl flat_map. rewrite flat_map_app.
    change (for_of (parse_block' depth) (b :: blocks) markdown)
      with (bind (parse_block' depth markdown b)
              (fun s' => for_of (parse_block' depth) blocks s')).
    apply Issues_bind; [apply Hb | exact IH].
Qed.

Lemma Issues_parse_list depth blocks :
  Forall (fun b => forall depth markdown,
            Issues' (parse_block' depth markdown b)
                    (flat_map image_url (walk_order b))) blocks ->
  Issues' (parse' blocks depth)
          (flat_map image_url (flat_map walk_order blocks)).
Proof.
  intros Hall. unfold parse.
  rewrite <- (app_nil_r (flat_map image_url (flat_map walk_order blocks))).
  apply Issues_bind; [now apply Issues_for_of |].
  intros markdown. apply Issues_ret.
Qed.

Lemma Issues_parse_block b :
  forall depth markdown,
    Issues' (parse_block' depth markdown b)
            (flat_map image_url (walk_order b)).
Proof.
  induction b as [h d | h cs d IH] using Block_forall_ind;
    intros depth markdown; rewrite parse_block_unfold;
    simpl walk_order; rewrite flat_map_app; simpl (flat_map image_url [d]);
    rewrite app_nil_r;
    apply (Issues_loop_body _ depth markdown (mkBlock h _ d)).
  - destruct h; apply Issues_ret.
  - destruct h; [| apply Issues_ret].
    apply Issues_parse_list. exact IH.
Qed.

Lemma Issues_parse blocks depth :
  Issues' (parse' blocks depth)
          (flat_map image_url (flat_map walk_order blocks)).
Proof.
  apply Issues_parse_list. apply Forall_forall.
  intros b _. apply Issues_parse_block.
Qed.

End Lookup_order.

(** Where no image block has an image block below it, the walker's order
    of the image URLs is the document order. *)
Lemma walk_urls_of_list (blocks : list Block) :
  Forall (fun b => images_above_no_image b = true ->
                   flat_map image_url (walk_order b)
                   = flat_map image_url (document_order b)) blocks ->
  forallb images_above_no_image blocks = true ->
  flat_map image_url (flat_map walk_order blocks)
  = flat_map image_url (flat_map document_order blocks).
Proof.
  induction 1 as [|b blocks Hb Hall IH]; intros Hok; [reflexivity |].
  simpl in Hok. apply andb_prop in Hok as [Hhere Hlater].
  simpl. rewrite !flat_map_app, (Hb Hhere), (IH Hlater). reflexivity.
Qed.

Lemma walk_urls_of_block (b : Block) :
  images_above_no_image b = true ->
  flat_map image_url (walk_order b) = flat_map image_url (document_order b).
Proof.
  induction b as [h d | h cs d IH] using Block_forall_ind; intros Hok.
  - destruct h; reflexivity.
  - destruct h; [| reflexivity].
    simpl in Hok. apply andb_prop in Hok as [Hown Hbelow].
    pose proof (walk_urls_of_list cs IH Hbelow) as Hsame.
    simpl. rewrite flat_map_app, <- Hsame. simpl.
    destruct d; simpl; try apply app_nil_r.
    unfold visited_children in Hown; simpl in Hown.
    destruct (flat_map image_url (flat_map walk_order cs));
      [reflexivity | discriminate Hown].
Qed.

(** C4 (as stated, refuted): an image block with an image block as its
    child.  The children are rendered before the block itself, so the
    lookup for the child is issued first, while in document order the
    parent comes first. *)
Lemma lookups_child_before_parent :
  let child := leaf (ImageBlock {| source := external "b";
                                   caption := None |}) in
  let parent := mkBlock true (Some [child])
                  (ImageBlock {| source := external "a";
                                 caption := None |}) in
  parse no_video (sized_options (Some 10%Z) (Some 20%Z)) [parent] 0
    empty_world
  = (Ok ("![a|10x20](a)" ++ EOL_MD ++ "  ![b|10x20](b)" ++ EOL_MD
           ++ EOL_MD ++ EOL_MD),
     {| lookups := ["b"; "a"]; env := tt |})
  /\ flat_map image_url (flat_map document_order [parent]) = ["a"; "b"]
  /\ lookups (snd (parse no_video (sized_options (Some 10%Z) (Some 20%Z))
                     [parent] 0 empty_world))
     <> flat_map image_url (flat_map document_order [parent]).
Proof.
  cbv zeta.
  split; [vm_compute; reflexivity |].
  split; [reflexivity |].
  vm_compute. discriminate.
Qed.

(** C4 (amended): with the size-in-alt-text path active, the URLs passed
    to [getImageSize] during a render are, in order, those of the image
    blocks in the order the walker renders them, a block's children
    before the block itself; the calls are made one after the other, each
    from the state the previous one left; a render that fails has issued a
    prefix of that sequence, a render that returns has issued all of it.
    Where no image block has an image block below it, that order is the
    document order. *)
Theorem lookups_in_walk_order {Env}
  (processExternalVideoUrl : string -> bool * string)
  (parserOptions : NotionBlocksMarkdownParserOptions Env)
  (blocks : list Block) (depth : nat) (w : World Env) :
  imageAsFigure parserOptions = false ->
  addImageSizeToAltText parserOptions = true ->
  let urls := flat_map image_url (flat_map walk_order blocks) in
  let outcome := parse processExternalVideoUrl parserOptions blocks depth w in
  (exists issued rest,
     lookups (snd outcome) = (lookups w ++ issued)%list
     /\ urls = (issued ++ rest)%list
     /\ env (snd outcome)
        = lookups_in_sequence (getImageSize parserOptions) issued (env w))
  /\ (forall text,
        fst outcome = Ok text ->
        lookups (snd outcome) = (lookups w ++ urls)%list
        /\ env (snd outcome)
           = lookups_in_sequence (getImageSize parserOptions) urls (env w))
  /\ (forallb images_above_no_image blocks = true ->
      urls = flat_map image_url (flat_map document_order blocks)).
Proof.
  intros Hfigure Hsize urls outcome.
  destruct (Issues_parse processExternalVideoUrl parserOptions
              Hfigure Hsize blocks depth w)
    as (issued & Hlookups & Henv & (rest & Hrest) & Hall).
  fold outcome in Hlookups, Henv, Hall. fold urls in Hrest, Hall.
  split; [| split].
  - exists issued, rest. now repeat split.
  - intros text Hok. rewrite <- (Hall text Hok). now split.
  - intros Hleaves. apply walk_urls_of_list; [| exact Hleaves].
    apply Forall_forall. intros b _. apply walk_urls_of_block.
Qed.

Lemma lookups_in_walk_order_witness :
  let doc :=
    [ mkBlock true
        (Some [leaf (ImageBlock {| source := external "a";
                                   caption := None |})])
        (ToggleBlock []);
      leaf (ImageBlock {| source := file "b"; caption := None |}) ] in
  lookups (snd (parse no_video (sized_options (Some 10%Z) (Some 20%Z))
                  doc 0 empty_world))
  = ["a"; "b"]
  /\ flat_map image_url (flat_map document_order doc) = ["a"; "b"].
Proof.
  cbv zeta.
  destruct (lookups_in_walk_order no_video
              (sized_options (Some 10%Z) (Some 20%Z))
              [ mkBlock true
                  (Some [leaf (ImageBlock {| source := external "a";
                                             caption := None |})])
                  (ToggleBlock []);
                leaf (ImageBlock {| source := file "b"; caption := None |}) ]
              0 empty_world eq_refl eq_refl)
    as (_ & Hreturns & Hdocument).
  split.
  - apply (Hreturns _ eq_refl).
  - symmetry. apply Hdocument. reflexivity.
Defined.

(* ================================================================== *)
(** ** Further properties of the rich-text renderer *)
(* ================================================================== *)

Lemma parseRichTexts_from (richTexts : list RichText) (parsed : string) :
  fold_left
    (fun parsedContent richText =>
       match richText with
       | Text r => parsedContent ++ parseText r
       | Mention r => parsedContent ++ parseMention r
       | Equation r => parsedContent ++ parseEquation r
       end)
    richTexts parsed
  = parsed ++ parseRichTexts richTexts.
Proof.
  unfold parseRichTexts. revert parsed.
  induction richTexts as [|r rs IH]; intros parsed; simpl.
  - now rewrite append_empty_r.
  - rewrite IH. symmetry. rewrite IH.
    destruct r; simpl; now rewrite append_assoc.
Qed.

(** X1: the rich-text renderer is a left-to-right concatenation: the
    render of two sequences one after the other is the render of the first
    followed by the render of the second, the empty sequence renders as
    the empty text, and a sequence of one span renders as that span. *)
Theorem parseRichTexts_app (before after : list RichText) :
  parseRichTexts (before ++ after)
  = parseRichTexts before ++ parseRichTexts after
  /\ parseRichTexts [] = ""
  /\ (forall r, parseRichTexts [Text r] = parseText r)
  /\ (forall r, parseRichTexts [Mention r] = parseMention r)
  /\ (forall r, parseRichTexts [Equation r] = parseEquation r).
Proof.
  repeat split.
  unfold parseRichTexts at 1. rewrite fold_left_app.
  apply parseRichTexts_from.
Qed.

(** X2: annotation wraps and never rewrites: for every annotations record
    there are an opening and a closing text, fixed by the record alone,
    between which the content appears unchanged; with every flag off and
    the default colour both are empty. *)
Theorem annotate_affixes (a : Annotations) :
  (exists opening closing,
     forall x, annotate a x = opening ++ x ++ closing)
  /\ (forall x, annotate plain x = x).
Proof.
  split; [| reflexivity].
  assert (Hwrap : forall key value,
            exists opening closing, forall x,
              (if truthy value then annotateModifier key x value else x)
              = opening ++ x ++ closing).
  { intros key value. destruct (truthy value).
    - destruct key; unfold annotateModifier.
      + now exists "**", "**".
      + now exists "_", "_".
      + now exists "~~", "~~".
      + now exists "<u>", "</u>".
      + now exists "`", "`".
      + destruct (value_to_string value =? "default"); simpl.
        * exists "", "". intros x. simpl. now rewrite append_empty_r.
        * exists ("<span notion-color='" ++ value_to_string value ++ "'>"),
            "</span>".
          intros x. now rewrite !append_assoc.
    - exists "", "". intros x. simpl. now rewrite append_empty_r. }
  induction a as [|[key value] later IH].
  - exists "", "". intros x. simpl. now rewrite append_empty_r.
  - destruct IH as (o & c & IH).
    destruct (Hwrap key value) as (o' & c' & Hstep).
    exists (o ++ o'), (c' ++ c). intros x.
    change (annotate ((key, value) :: later) x)
      with (annotate later
              (if truthy value then annotateModifier key x value else x)).
    now rewrite Hstep, IH, !append_assoc.
Qed.

(* ================================================================== *)
(** ** Further properties of the block renderers *)
(* ================================================================== *)

(** X3: the non-breaking-space option looks at the length of the run
    sequence, not at the rendered text.  It changes nothing for a paragraph
    with at least one run, even one whose text is empty; a paragraph with
    no run renders as two line breaks without the option and as a
    non-breaking space between line breaks with it. *)
Theorem parseParagraph_empty {Env}
  (imageAsFigure addImageSizeToAltText : bool)
  (getImageSize : option (string -> Env -> LookupOutcome * Env)) :
  let options flag :=
    {| imageAsFigure := imageAsFigure;
       addImageSizeToAltText := addImageSizeToAltText;
       getImageSize := getImageSize;
       emptyParagraphToNonBreakingSpace := flag |} in
  (forall first others,
     parseParagraph (options true) (ParagraphBlock (first :: others))
     = parseParagraph (options false) (ParagraphBlock (first :: others)))
  /\ parseParagraph (options true) (ParagraphBlock [Text (plain_text_run "")])
     = Ok (EOL_MD ++ EOL_MD)
  /\ parseParagraph (options false) (ParagraphBlock []) = Ok (EOL_MD ++ EOL_MD)
  /\ parseParagraph (options true) (ParagraphBlock [])
     = Ok (EOL_MD ++ "&nbsp;" ++ EOL_MD).
Proof. repeat split. Qed.

(** Splitting at line breaks and joining. *)
Lemma split_not_nil (s : string) (c : ascii) : split s c <> [].
Proof.
  destruct s as [|a s]; simpl; [discriminate |].
  destruct (Ascii.eqb a c); [discriminate |].
  destruct (split s c); discriminate.
Qed.

Lemma concat_cons_char (sep : string) (a : ascii) (piece : string)
  (pieces : list string) :
  String.concat sep (String a piece :: pieces)
  = String a (String.concat sep (piece :: pieces)).
Proof. destruct pieces; reflexivity. Qed.

Lemma concat_cons_prefix (sep k piece : string) (pieces : list string) :
  String.concat sep ((k ++ piece) :: pieces)
  = k ++ String.concat sep (piece :: pieces).
Proof. destruct pieces; simpl; [reflexivity | now rewrite append_assoc]. Qed.

(** The pieces of a split, joined by the separator, give the text back, and
    no piece contains the separator. *)
Lemma join_split (s : string) (c : ascii) :
  join (split s c) (String c "") = s
  /\ Forall (fun piece => contains_char c piece = false) (split s c).
Proof.
  unfold join. induction s as [|a s [IHjoin IHfree]]; simpl.
  - split; [reflexivity | now repeat constructor].
  - destruct (Ascii.eqb a c) eqn:Hac.
    + apply Ascii.eqb_eq in Hac. subst a. split.
      * destruct (split s c) as [|piece pieces] eqn:Hsplit;
          [now destruct (split_not_nil s c) |].
        change (String.concat (String c "") ("" :: piece :: pieces))
          with (String c (String.concat (String c "") (piece :: pieces))).
        now rewrite IHjoin.
      * constructor; [reflexivity | exact IHfree].
    + destruct (split s c) as [|piece pieces] eqn:Hsplit;
        [now destruct (split_not_nil s c) |].
      split.
      * now rewrite concat_cons_char, IHjoin.
      * inversion IHfree as [|? ? Hpiece Hpieces]; subst.
        constructor; [| exact Hpieces]. simpl. now rewrite Hac.
Qed.

(** Joining with a separator that ends in a continuation text is joining
    the continued pieces with the bare separator. *)
Lemma concat_continuation (sep k first : string) (rest : list string) :
  String.concat (sep ++ k) (first :: rest)
  = String.concat sep (first :: map (String.append k) rest).
Proof.
  revert first. induction rest as [|r rest IH]; intros first.
  - reflexivity.
  - change (String.concat (sep ++ k) (first :: r :: rest))
      with (first ++ (sep ++ k) ++ String.concat (sep ++ k) (r :: rest)).
    rewrite IH. simpl map.
    change (String.concat sep (first :: (k ++ r) :: map (String.append k) rest))
      with (first ++ sep
              ++ String.concat sep ((k ++ r) :: map (String.append k) rest)).
    now rewrite concat_cons_prefix, append_assoc.
Qed.

(** X4: the quote renderer writes the rich text line by line: the lines of
    the text (its pieces between line breaks, which joined by line breaks
    give the text back) each prefixed with ["> "], between two line
    breaks. *)
Theorem parseQuoteBlock_lines (rich_text : list RichText) :
  let lines := split (parseRichTexts rich_text) LF in
  parseQuoteBlock (QuoteBlock rich_text)
  = Ok (EOL_MD ++ join (map (String.append "> ") lines) EOL_MD ++ EOL_MD)
  /\ join lines EOL_MD = parseRichTexts rich_text
  /\ Forall line_break_free lines.
Proof.
  intros lines.
  destruct (join_split (parseRichTexts rich_text) LF) as [Hjoin Hfree].
  split; [| split; [exact Hjoin | exact Hfree]].
  unfold parseQuoteBlock, join. fold lines.
  destruct lines as [|first rest] eqn:Hlines;
    [now destruct (split_not_nil (parseRichTexts rich_text) LF) |].
  rewrite concat_continuation.
  change (map (String.append "> ") (first :: rest))
    with (("> " ++ first) :: map (String.append "> ") rest).
  now rewrite concat_cons_prefix.
Qed.

(** X5: the list-item renderers write the first line of the rich text
    after the marker (["* "], or ["1. "] whatever the position of the item)
    and every further line after four spaces, and end with a line break. *)
Theorem parseListItems_lines (rich_text : list RichText) :
  exists first rest,
    split (parseRichTexts rich_text) LF = first :: rest
    /\ join (first :: rest) EOL_MD = parseRichTexts rich_text
    /\ Forall line_break_free (first :: rest)
    /\ parseBulletedListItems (BulletedListItemBlock rich_text)
       = Ok (join (("* " ++ first) :: map (String.append "    ") rest)
                  EOL_MD ++ EOL_MD)
    /\ parseNumberedListItems (NumberedListItemBlock rich_text)
       = Ok (join (("1. " ++ first) :: map (String.append "    ") rest)
                  EOL_MD ++ EOL_MD).
Proof.
  destruct (join_split (parseRichTexts rich_text) LF) as [Hjoin Hfree].
  destruct (split (parseRichTexts rich_text) LF) as [|first rest] eqn:Hlines;
    [now destruct (split_not_nil (parseRichTexts rich_text) LF) |].
  exists first, rest.
  split; [reflexivity |]. split; [exact Hjoin |]. split; [exact Hfree |].
  unfold parseBulletedListItems, parseNumberedListItems, join.
  rewrite Hlines, concat_continuation, !concat_cons_prefix.
  split; reflexivity.
Qed.

(** X6: the walker reads the number of hashes off the tag of a heading
    block: for a heading of level 1, 2 or 3 it appends the prefix, a line
    break, that many hashes, a space, the rich text, a line break and the
    text of the children. *)
Theorem parse_heading_level {Env}
  (processExternalVideoUrl : string -> bool * string)
  (parserOptions : NotionBlocksMarkdownParserOptions Env)
  (level : HeadingLevel) (rich_text : list RichText)
  (h : bool) (c : option (list Block)) (depth : nat) (markdown : string)
  (w : World Env) :
  headingLevel_of (heading_tag level) = Some (level_number level)
  /\ parse_block processExternalVideoUrl parserOptions depth markdown
       (mkBlock h c (HeadingBlock level rich_text)) w
     = bind (childBlockString_of
               (parse processExternalVideoUrl parserOptions) depth
               (mkBlock h c (HeadingBlock level rich_text)))
         (fun childBlockString =>
            ret (markdown ++ repeat " " depth
                   ++ (EOL_MD ++ repeat "#" (level_number level) ++ " "
                         ++ parseRichTexts rich_text ++ EOL_MD)
                   ++ childBlockString))
         w.
Proof.
  split; [now destruct level |].
  rewrite parse_block_unfold. unfold loop_body.
  apply bind_ext. intros childBlockString w'.
  destruct level; reflexivity.
Qed.

Lemma prefix_app_self (pattern s : string) :
  String.prefix pattern (pattern ++ s) = true.
Proof.
  induction pattern as [|a pattern IH]; simpl.
  - now destruct s.
  - destruct (ascii_dec a a) as [_|Hneq]; [exact IH | now contradiction Hneq].
Qed.

Lemma indexOf_at_start (pattern s : string) :
  indexOf (pattern ++ s) pattern = Some 0.
Proof.
  destruct pattern as [|a pattern].
  - destruct s; reflexivity.
  - change (indexOf (String a pattern ++ s) (String a pattern))
      with (if String.prefix (String a pattern) (String a pattern ++ s)
            then Some 0
            else option_map S (indexOf (pattern ++ s) (String a pattern))).
    now rewrite prefix_app_self.
Qed.

(** X7: the callout renderer puts the icon in the hole of its template
    whatever the rich text is: the hole comes before the rich text, so a
    rich text that contains the token [{{icon}}] is left alone.  The icon
    text is inserted as it is when it holds none of the patterns [$$],
    [$&], [$`], [$'], which is always the case of a file icon. *)
Theorem parseCalloutBlock_icon (icon : CalloutIcon)
  (rich_text : list RichText) :
  (has_substitution_pattern (getCalloutIcon icon) = false ->
   parseCalloutBlock (CalloutBlock icon rich_text)
   = Ok (EOL_MD
           ++ ("<div notion-callout>" ++ EOL_MD
                 ++ "  " ++ getCalloutIcon icon ++ EOL_MD
                 ++ "  <span notion-callout-text>" ++ EOL_MD
                 ++ "    " ++ parseRichTexts rich_text ++ EOL_MD
                 ++ "  </span>" ++ EOL_MD
                 ++ "</div>")
           ++ EOL_MD))
  /\ has_substitution_pattern (getCalloutIcon CalloutIconFile) = false.
Proof.
  split; [| reflexivity].
  intros Hplain. unfold parseCalloutBlock. cbv zeta.
  set (post := EOL_MD ++ "  <span notion-callout-text>" ++ EOL_MD
                 ++ "    " ++ parseRichTexts rich_text ++ EOL_MD
                 ++ "  </span>" ++ EOL_MD ++ "</div>").
  set (pre := "<div notion-callout>" ++ EOL_MD ++ "  ").
  change ("<div notion-callout>" ++ EOL_MD ++ "  {{icon}}" ++ post)
    with (pre ++ "{{icon}}" ++ post).
  rewrite replace_hole; [| | exact Hplain].
  - reflexivity.
  - rewrite (indexOf_app_no_first "{" "{icon}}" pre ("{{icon}}" ++ post)
               eq_refl).
    now rewrite indexOf_at_start.
Qed.

Lemma parseCalloutBlock_icon_witness :
  parseCalloutBlock
    (CalloutBlock (CalloutIconEmoji "!") [Text (plain_text_run "{{icon}}")])
  = Ok (EOL_MD
          ++ ("<div notion-callout>" ++ EOL_MD
                ++ "  <span notion-callout-emoji>!</span>" ++ EOL_MD
                ++ "  <span notion-callout-text>" ++ EOL_MD
                ++ "    {{icon}}" ++ EOL_MD
                ++ "  </span>" ++ EOL_MD
                ++ "</div>")
          ++ EOL_MD).
Proof.
  apply (proj1 (parseCalloutBlock_icon (CalloutIconEmoji "!")
                  [Text (plain_text_run "{{icon}}")])).
  reflexivity.
Defined.

(** X10: a video block shows its caption only when the URL is not turned
    into an embeddable fragment: then it renders exactly as a file block
    on the same file does; otherwise it renders the fragment between two
    line breaks, whatever the caption. *)
Theorem parseVideoBlock_cases
  (processExternalVideoUrl : string -> bool * string) (f : FileValue) :
  let url := fc_url (parseFile f) in
  (fst (processExternalVideoUrl url) = false ->
   parseVideoBlock processExternalVideoUrl (VideoBlock f)
   = parseFileBlock (FileBlock f))
  /\ (fst (processExternalVideoUrl url) = true ->
      forall c,
        parseVideoBlock processExternalVideoUrl
          (VideoBlock {| source := source f; caption := c |})
        = Ok (EOL_MD ++ snd (processExternalVideoUrl url) ++ EOL_MD)).
Proof.
  intros url. unfold parseVideoBlock, parseFileBlock. subst url.
  split.
  - destruct (processExternalVideoUrl (fc_url (parseFile f)))
      as [[|] fragment]; [discriminate | reflexivity].
  - intros Hprocessed c.
    change (fc_url (parseFile {| source := source f; caption := c |}))
      with (fc_url (parseFile f)).
    destruct (processExternalVideoUrl (fc_url (parseFile f)))
      as [[|] fragment]; [reflexivity | discriminate].
Qed.

Lemma parseVideoBlock_cases_witness :
  parseVideoBlock no_video
    (VideoBlock {| source := external "u"; caption := None |})
  = parseFileBlock (FileBlock {| source := external "u"; caption := None |})
  /\ parseVideoBlock (fun url => (true, "<iframe/>"))
       (VideoBlock {| source := external "u"; caption := None |})
     = Ok (EOL_MD ++ "<iframe/>" ++ EOL_MD).
Proof.
  split.
  - apply (proj1 (parseVideoBlock_cases no_video
                    {| source := external "u"; caption := None |})).
    reflexivity.
  - apply (proj2 (parseVideoBlock_cases (fun url => (true, "<iframe/>"))
                    {| source := external "u"; caption := None |})
             eq_refl None).
Defined.

(* ================================================================== *)
(** ** Renders that involve no lookup *)
(* ================================================================== *)

Section No_lookup.

Context {Env : Type}.
Variable processExternalVideoUrl : string -> bool * string.
Variable parserOptions : NotionBlocksMarkdownParserOptions Env.
Hypothesis size_path_off :
  imageAsFigure parserOptions = true
  \/ addImageSizeToAltText parserOptions = false.

#[local] Abbreviation parse' :=
  (parse processExternalVideoUrl parserOptions).
#[local] Abbreviation parse_block' :=
  (parse_block processExternalVideoUrl parserOptions).

Lemma leaves_world_ret {A} (a : A) : leaves_world (Env := Env) (ret a).
Proof. intros w. reflexivity. Qed.

Lemma leaves_world_lift {A} (c : Completion A) :
  leaves_world (Env := Env) (lift c).
Proof. intros w. reflexivity. Qed.

Lemma leaves_world_throw {A} (e : Exception) :
  leaves_world (Env := Env) (throw (A := A) e).
Proof. intros w. reflexivity. Qed.

Lemma leaves_world_bind {A B} (m : Async Env A) (k : A -> Async Env B) :
  leaves_world m -> (forall a, leaves_world (k a)) ->
  leaves_world (bind m k).
Proof.
  intros Hm Hk w. unfold bind. specialize (Hm w).
  destruct (m w) as [[a|e] w1]; simpl in Hm; subst w1;
    [apply Hk | reflexivity].
Qed.

Lemma leaves_world_append_if cond markdown (rendered : Async Env string) :
  leaves_world rendered -> leaves_world (append_if cond markdown rendered).
Proof.
  intros Hrendered. unfold append_if. destruct cond.
  - apply leaves_world_bind; [exact Hrendered |].
    intros s. apply leaves_world_ret.
  - apply leaves_world_ret.
Qed.

Lemma leaves_world_parseImageBlock d :
  leaves_world (parseImageBlock parserOptions d).
Proof.
  destruct d; try apply leaves_world_throw.
  unfold parseImageBlock.
  destruct (imageAsFigure parserOptions) eqn:Hfigure;
    [apply leaves_world_ret |].
  destruct size_path_off as [Hon | Hoff]; [discriminate |].
  rewrite Hoff. apply leaves_world_ret.
Qed.

Lemma leaves_world_loop_body parse depth markdown b :
  leaves_world (childBlockString_of parse depth b) ->
  leaves_world
    (loop_body processExternalVideoUrl parserOptions parse depth markdown b).
Proof.
  intros Hchildren. unfold loop_body. cbv zeta.
  apply leaves_world_bind; [exact Hchildren |]. intros childBlockString.
  repeat (apply leaves_world_bind;
          [ apply leaves_world_append_if;
            first [ apply leaves_world_ret
                  | apply leaves_world_bind;
                    [ first [ apply leaves_world_lift
                            | apply leaves_world_parseImageBlock ]
                    | intros s; apply leaves_world_ret ] ]
          | intros ? ]).
  apply leaves_world_ret.
Qed.

Lemma leaves_world_for_of depth blocks :
  Forall (fun b => forall depth markdown,
            leaves_world (parse_block' depth markdown b)) blocks ->
  forall markdown, leaves_world (for_of (parse_block' depth) blocks markdown).
Proof.
  induction 1 as [|b blocks Hb Hall IH]; intros markdown.
  - apply leaves_world_ret.
  - change (for_of (parse_block' depth) (b :: blocks) markdown)
      with (bind (parse_block' depth markdown b)
              (fun s' => for_of (parse_block' depth) blocks s')).
    apply leaves_world_bind; [apply Hb | exact IH].
Qed.

Lemma leaves_world_parse_list depth blocks :
  Forall (fun b => forall depth markdown,
            leaves_world (parse_block' depth markdown b)) blocks ->
  leaves_world (parse' blocks depth).
Proof.
  intros Hall. unfold parse.
  apply leaves_world_bind; [now apply leaves_world_for_of |].
  intros markdown. apply leaves_world_ret.
Qed.

Lemma leaves_world_parse_block b :
  forall depth markdown, leaves_world (parse_block' depth markdown b).
Proof.
  induction b as [h d | h cs d IH] using Block_forall_ind;
    intros depth markdown; rewrite parse_block_unfold;
    apply leaves_world_loop_body; unfold childBlockString_of; simpl.
  - destruct h; apply leaves_world_ret.
  - destruct h; [| apply leaves_world_ret].
    now apply leaves_world_parse_list.
Qed.

End No_lookup.

(** X8: unless [imageAsFigure] is off and [addImageSizeToAltText] is on,
    a render never calls [getImageSize]: whatever the document, and
    whether the render returns or throws, the list of lookups and the state
    behind the lookup are as they were.  This is the case of a parser
    built without options. *)
Theorem parse_without_lookup {Env}
  (processExternalVideoUrl : string -> bool * string)
  (given : NotionBlocksMarkdownParserOptions Env)
  (blocks : list Block) (depth : nat) (w : World Env) :
  (imageAsFigure given = true
   \/ addImageSizeToAltText given = false ->
   snd (parse processExternalVideoUrl given blocks depth w) = w)
  /\ (forall lookup,
        snd (parse processExternalVideoUrl
               (parserOptions
                  (constructor
                     (Some {| opt_imageAsFigure := None;
                              opt_addImageSizeToAltText := None;
                              opt_getImageSize := lookup;
                              opt_emptyParagraphToNonBreakingSpace :=
                                None |})))
               blocks depth w) = w).
Proof.
  assert (Hoff : forall options,
            imageAsFigure options = true
            \/ addImageSizeToAltText options = false ->
            snd (parse processExternalVideoUrl options blocks depth w) = w).
  { intros options Hoff.
    apply (leaves_world_parse_list processExternalVideoUrl options).
    apply Forall_forall. intros b _.
    now apply leaves_world_parse_block. }
  split; [apply Hoff |].
  intros lookup. apply Hoff. left. reflexivity.
Qed.

Lemma parse_without_lookup_witness :
  snd (parse no_video
         {| imageAsFigure := false; addImageSizeToAltText := false;
            getImageSize := Some (fun _ e => (Rejected "unused", e));
            emptyParagraphToNonBreakingSpace := false |}
         [leaf (ImageBlock {| source := external "u"; caption := None |})]
         0 empty_world)
  = empty_world.
Proof.
  apply (proj1 (parse_without_lookup no_video
                  {| imageAsFigure := false; addImageSizeToAltText := false;
                     getImageSize :=
                       Some (fun _ e => (Rejected "unused", e));
                     emptyParagraphToNonBreakingSpace := false |}
                  [leaf (ImageBlock {| source := external "u";
                                       caption := None |})]
                  0 empty_world)).
  right. reflexivity.
Defined.

(* ================================================================== *)
(** ** When a render returns *)
(* ================================================================== *)

Section Returns.

Context {Env : Type}.
Variable processExternalVideoUrl : string -> bool * string.
Variable parserOptions : NotionBlocksMarkdownParserOptions Env.
Hypothesis size_path_off :
  imageAsFigure parserOptions = true
  \/ addImageSizeToAltText parserOptions = false.

#[local] Abbreviation rendered' :=
  (rendered processExternalVideoUrl parserOptions).
#[local] Abbreviation renders' :=
  (renders processExternalVideoUrl parserOptions).






End Returns.



(* ================================================================== *)
(** ** Own text and children text *)
(* ================================================================== *)

(** X11: for every enumerated kind but the toggle, what the loop appends
    for a block is the prefix of [depth] spaces, then the text the block
    gives alone at depth 0, then the text of its children: the depth
    enters the block's own text through the prefix only, and the children
    text follows the own text unchanged. *)
Theorem parse_block_own_then_children {Env}
  (processExternalVideoUrl : string -> bool * string)
  (given : NotionBlocksMarkdownParserOptions Env)
  (d : BlockData) (h : bool) (c : option (list Block))
  (depth : nat) (markdown : string) (w : World Env) :
  children_follow d = true ->
  parse_block processExternalVideoUrl given depth markdown (mkBlock h c d) w
  = bind (childBlockString_of (parse processExternalVideoUrl given) depth
            (mkBlock h c d))
      (fun childBlockString =>
         bind (parse_block processExternalVideoUrl given 0 "" (leaf d))
           (fun own =>
              ret (markdown ++ repeat " " depth ++ own ++ childBlockString)))
      w.
Proof.
  intros Hkind.
  rewrite parse_block_unfold. unfold loop_body at 1.
  apply bind_ext. intros childBlockString w'.
  rewrite parse_block_unfold.
  destruct d; try discriminate Hkind; clear Hkind;
    try (unfold loop_body, leaf, childBlockString_of, append_if, bind,
           ret, lift; simpl; rewrite ?append_empty_r; reflexivity).
  - unfold loop_body, leaf, childBlockString_of, append_if, bind, ret, lift;
      simpl.
    now rewrite !append_assoc.
  - destruct language, rich_text;
      unfold loop_body, leaf, childBlockString_of, append_if, bind, ret,
        lift; simpl; rewrite ?append_empty_r; reflexivity.
  - destruct level;
      unfold loop_body, leaf, childBlockString_of, append_if, bind, ret,
        lift; simpl; rewrite ?append_empty_r; reflexivity.
  - unfold loop_body, leaf; cbv zeta; simpl data.
    remember (parseImageBlock given (ImageBlock image)) as render.
    unfold childBlockString_of, append_if, bind, ret, lift; simpl.
    destruct (render w') as [[s|e] w'']; [| reflexivity].
    now rewrite append_empty_r.
  - destruct embed_caption;
      unfold loop_body, leaf, childBlockString_of, append_if, bind, ret,
        lift; simpl; rewrite ?append_empty_r; reflexivity.
  - unfold loop_body, leaf, childBlockString_of, append_if, bind, ret, lift,
      parseVideoBlock; simpl.
    destruct (processExternalVideoUrl _) as [[|] fragment]; simpl;
      rewrite ?append_empty_r; reflexivity.
Qed.

Lemma parse_block_own_then_children_witness :
  parse_block no_video default_options 4 "before"
    (mkBlock true (Some []) DividerBlock) empty_world
  = (Ok ("before" ++ "    " ++ (EOL_MD ++ "---" ++ EOL_MD) ++ EOL_MD),
     empty_world).
Proof.
  apply (eq_trans
           (parse_block_own_then_children no_video default_options
              DividerBlock true (Some []) 4 "before" empty_world eq_refl)).
  reflexivity.
Defined.
